(** * Blog generator backend: content synthesis and document listing

    A shallow embedding of [main.py] and [schemas.py].  Python [str] values
    are sequences of Unicode code points, dictionaries are finite maps, and
    the request handlers thread the document store explicitly. *)

From Stdlib Require Import NArith ZArith Ascii Permutation Sorted Lia.
From Stdlib Require String DecimalString.
Import String.StringSyntax.
From stdpp Require Import base option list sorting gmap.

Local Open Scope list_scope.

(* ===================================================================== *)
(** * Part I: definitions                                                *)
(* ===================================================================== *)

(** ** Python strings *)

(** A [str] is its sequence of code points. *)
Abbreviation str := (list N).

(** A source literal, written in ASCII. *)
Bind Scope string_scope with String.string.

Definition lit (s : String.string) : str :=
  List.map N_of_ascii (String.list_ascii_of_string s).

(** [str.isspace] for one code point: the code points CPython classifies as
    whitespace (U+0009..U+000D, U+001C..U+0020, U+0085, U+00A0, U+1680,
    U+2000..U+200A, U+2028, U+2029, U+202F, U+205F, U+3000). *)
Definition isspace (c : N) : bool :=
  ((9 <=? c) && (c <=? 13) || (28 <=? c) && (c <=? 32)
   || (c =? 133) || (c =? 160) || (c =? 5760)
   || (8192 <=? c) && (c <=? 8202)
   || (c =? 8232) || (c =? 8233) || (c =? 8239) || (c =? 8287)
   || (c =? 12288))%N.

Fixpoint lstrip (s : str) : str :=
  match s with
  | c :: s' => if isspace c then lstrip s' else s
  | [] => []
  end.

Definition rstrip (s : str) : str := rev (lstrip (rev s)).

(** [s.strip()] *)
Definition strip (s : str) : str := rstrip (lstrip s).

(** [sep.join(parts)] *)
Fixpoint join (sep : str) (parts : list str) : str :=
  match parts with
  | [] => []
  | [p] => p
  | p :: rest => p ++ sep ++ join sep rest
  end.

(** Truthiness of a string: non-empty. *)
Definition truthy (s : str) : bool :=
  match s with [] => false | _ => true end.

Definition is_ascii (c : N) : bool := (c <? 128)%N.

Definition ascii_lower (c : N) : N :=
  if ((65 <=? c) && (c <=? 90))%N then (c + 32)%N else c.

(** ** The content synthesizer *)

Definition generate_outline (topic length : str) : list str :=
  let base :=
    [ lit "Introduction";
      lit "Why " ++ topic ++ lit " Matters";
      lit "Key Principles of " ++ topic;
      lit "Practical Tips for " ++ topic;
      lit "Common Mistakes to Avoid";
      lit "Conclusion" ] in
  if decide (length = lit "short") then take 4 base
  else if decide (length = lit "long") then
    base ++ [ lit "Case Study: " ++ topic ++ lit " in Action";
              lit "Resources & Next Steps" ]
  else base.

(** The tone-to-prefix dictionary literal of [generate_title]. *)
Definition title_prefixes : gmap str str :=
  <[ lit "Professional" := lit "A Practical Guide to" ]>
  (<[ lit "Friendly" := lit "Getting Started with" ]>
  (<[ lit "Technical" := lit "In-Depth Look at" ]>
  (<[ lit "Persuasive" := lit "Why You Should Care About" ]> ∅))).

Definition generate_title (topic tone : str) : str :=
  let prefix := default (lit "A Practical Guide to") (title_prefixes !! tone) in
  prefix ++ lit " " ++ topic.

(** The tone-to-style dictionary literal of [generate_paragraph]. *)
Definition paragraph_styles : gmap str str :=
  <[ lit "Professional" := lit "Clear and concise" ]>
  (<[ lit "Friendly" := lit "Conversational and approachable" ]>
  (<[ lit "Technical" := lit "Detailed and precise" ]>
  (<[ lit "Persuasive" := lit "Benefit-oriented and motivating" ]> ∅))).

Definition generate_paragraph (heading topic tone : str)
    (audience : option str) (keywords : list str) : str :=
  let style := default (lit "Clear and concise") (paragraph_styles !! tone) in
  let kw := match keywords with
            | [] => topic
            | _ => join (lit ", ") (take 3 keywords)
            end in
  let aud := match audience with
             | Some a => if truthy a then lit " for " ++ a else []
             | None => []
             end in
  heading ++ lit ": " ++ style ++ lit " overview of " ++ topic ++ aud ++ lit ". "
  ++ lit "This section explores key ideas, practical insights, and examples. "
  ++ lit "Keywords to focus on: " ++ kw ++ lit ".".

Definition newline : str := [10%N].

(** One iteration of the loop body of [generate_content]: the string that is
    appended to [paragraphs]. *)
Definition section_block (topic tone : str) (audience : option str)
    (keywords : list str) (h : str) : str :=
  (lit "## " ++ h ++ newline ++ newline)
  ++ generate_paragraph h topic tone audience keywords ++ newline.

Definition generate_content (topic tone : str) (outline : list str)
    (audience : option str) (keywords : list str) : str :=
  let paragraphs :=
    fold_left (fun paragraphs h =>
                 paragraphs ++ [section_block topic tone audience keywords h])
              outline [] in
  join newline paragraphs.

(** ** Values held by stored documents *)

(** The Python values a document of the store can hold in a field: [None],
    strings, integers, lists of strings, naive [datetime]s (microseconds
    since [datetime.min]) and store identifiers (a 96-bit ObjectId). *)
Inductive pyval :=
| PNone
| PStr (s : str)
| PInt (z : Z)
| PList (l : list str)
| PDatetime (t : N)
| PObjectId (oid : N).

#[global] Instance pyval_eq_dec : EqDecision pyval.
Proof. solve_decision. Defined.

(** A document is a dictionary from field names to values. *)
Abbreviation doc := (gmap str pyval).

(** [datetime.min] *)
Definition datetime_min : pyval := PDatetime 0.

(** [a < b] on strings: lexicographic on code points. *)
Fixpoint str_lt (a b : str) : bool :=
  match a, b with
  | _, [] => false
  | [], _ :: _ => true
  | x :: a', y :: b' =>
      if (x <? y)%N then true
      else if (y <? x)%N then false
      else str_lt a' b'
  end.

(** [a < b] on lists of strings: the first differing position decides. *)
Fixpoint str_list_lt (a b : list str) : bool :=
  match a, b with
  | _, [] => false
  | [], _ :: _ => true
  | x :: a', y :: b' =>
      if decide (x = y) then str_list_lt a' b' else str_lt x y
  end.

(** [a < b] between two values; [None] stands for the [TypeError] Python
    raises when the operands cannot be ordered. *)
Definition py_lt (a b : pyval) : option bool :=
  match a, b with
  | PStr x, PStr y => Some (str_lt x y)
  | PInt x, PInt y => Some (x <? y)%Z
  | PList x, PList y => Some (str_list_lt x y)
  | PDatetime x, PDatetime y => Some (x <? y)%N
  | PObjectId x, PObjectId y => Some (x <? y)%N
  | _, _ => None
  end.

(** ** [list.sort(key=..., reverse=True)]

    CPython sorts the list in place on (key, value) pairs: it finds the
    natural run at the head of the list ([count_run]), reverses it if it
    is descending, and inserts the remaining items by binary search
    ([binarysort]).  A comparison that raises ends the sort at once and the
    list keeps whatever order it had reached (the language reference:
    "the list will likely be left in a partially modified state").
    [SortDone] carries the list after a sort that completed, [SortRaised]
    the list as it was left when a comparison raised. *)
Abbreviation item := (pyval * doc)%type.

Inductive sort_result :=
| SortDone (l : list item)
| SortRaised (l : list item).

Definition sorted_items (r : sort_result) : list item :=
  match r with SortDone l | SortRaised l => l end.

Definition sort_raised (r : sort_result) : bool :=
  match r with SortDone _ => false | SortRaised _ => true end.

(** Length of the strictly descending run continuing after [prev]. *)
Fixpoint run_descending (prev : pyval) (l : list item) : option nat :=
  match l with
  | [] => Some 0
  | x :: l' =>
      match py_lt x.1 prev with
      | None => None
      | Some true => S <$> run_descending x.1 l'
      | Some false => Some 0
      end
  end.

(** Length of the non-descending run continuing after [prev]. *)
Fixpoint run_ascending (prev : pyval) (l : list item) : option nat :=
  match l with
  | [] => Some 0
  | x :: l' =>
      match py_lt x.1 prev with
      | None => None
      | Some true => Some 0
      | Some false => S <$> run_ascending x.1 l'
      end
  end.

(** [count_run]: the length of the natural run at the head of [l] and whether
    it is descending; [None] when a comparison raises. *)
Definition count_run (l : list item) : option (nat * bool) :=
  match l with
  | [] => Some (0, false)
  | [_] => Some (1, false)
  | x :: y :: l' =>
      match py_lt y.1 x.1 with
      | None => None
      | Some true => (λ n, (2 + n, true)) <$> run_descending y.1 l'
      | Some false => (λ n, (2 + n, false)) <$> run_ascending y.1 l'
      end
  end.

(** The binary search of [binarysort] for the slot of [pivot] in the sorted
    prefix [run], between [l] (inclusive) and [r] (exclusive).  The loop is
    a do-while; [fuel] bounds its iterations and [r - l] is always enough. *)
Fixpoint bisect (fuel : nat) (pivot : pyval) (run : list item) (l r : nat)
    : option nat :=
  match fuel with
  | O => Some l
  | S fuel' =>
      let p := l + Nat.div2 (r - l) in
      match run !! p with
      | None => Some l
      | Some e =>
          match py_lt pivot e.1 with
          | None => None
          | Some b =>
              let l' := if b then l else S p in
              let r' := if b then p else r in
              if l' <? r' then bisect fuel' pivot run l' r' else Some l'
          end
      end
  end.

(** [binarysort]: insert the elements of [rest] one by one into the sorted
    prefix [run]. *)
Fixpoint binarysort_loop (run rest : list item) : sort_result :=
  match rest with
  | [] => SortDone run
  | x :: rest' =>
      match bisect (length run) x.1 run 0 (length run) with
      | None => SortRaised (run ++ rest)
      | Some pos => binarysort_loop (take pos run ++ x :: drop pos run) rest'
      end
  end.

Definition binarysort (l : list item) (start : nat) : sort_result :=
  let start := if decide (start = 0) then 1 else start in
  binarysort_loop (take start l) (drop start l).

(** The sort of a list of fewer than 64 items: one natural run, extended
    to the whole list by binary insertion. *)
Definition sort_short (l : list item) : sort_result :=
  match count_run l with
  | None => SortRaised l
  | Some (n, descending) =>
      let l := if descending then rev (take n l) ++ drop n l else l in
      if n <? length l then binarysort l n else SortDone l
  end.

(** ** What the runtime supplies

    [rt_str] is the built-in [str()] on values, [rt_lower] is [str.lower]
    on strings that contain a code point outside ASCII, and [rt_sort_long]
    is the run-merging path [list.sort] takes on 64 items or more. *)
Record runtime := Runtime {
  rt_str : pyval → str;
  rt_lower : str → str;
  rt_sort_long : list item → sort_result;
}.

(** [s.lower()] *)
Definition lower (rt : runtime) (s : str) : str :=
  if forallb is_ascii s then List.map ascii_lower s else rt_lower rt s.

(** [docs.sort(key=key, reverse=True)] inside [try: ... except: pass]: the
    keys are computed, the list is reversed, sorted ascending and reversed
    back; the result is the list's contents afterwards, and whether the
    sort raised. *)
Definition list_sort_reverse (rt : runtime) (key : doc → pyval)
    (docs : list doc) : bool * list doc :=
  if length docs <? 2 then (false, docs)
  else
    let items := rev (List.map (λ d, (key d, d)) docs) in
    let r := if length docs <? 64 then sort_short items
             else rt_sort_long rt items in
    (sort_raised r, rev (List.map snd (sorted_items r))).

(** ** Schemas *)

Module GenerateRequest.
Record t := mk {
  topic : str;
  tone : str;
  keywords : option (list str);
  length : option str;
  audience : option str;
}.
End GenerateRequest.

Module BlogPost.
Record t := mk {
  title : str;
  topic : str;
  tone : str;
  keywords : list str;
  outline : list str;
  content : str;
  length : option str;
  audience : option str;
  status : str;
}.

(** The constructor call [BlogPost(title=..., ...)]: [status] takes its
    declared default. *)
Definition new (title topic tone : str) (keywords outline : list str)
    (content : str) (length audience : option str) : t :=
  mk title topic tone keywords outline content length audience
     (lit "generated").
End BlogPost.

Module GenerateResponse.
Record t := mk {
  id : str;
  title : str;
  outline : list str;
  content : str;
  topic : str;
  tone : str;
  keywords : list str;
  length : option str;
  audience : option str;
  created_at : N;
}.
End GenerateResponse.

(** ** The document store gateway ([database.py]) *)

(** The store: whether the backing database is reachable, its collections
    in retrieval order, and the next identifier it will assign. *)
Record store := Store {
  st_available : bool;
  st_collections : gmap str (list doc);
  st_next_id : N;
}.

Definition opt_str (o : option str) : pyval :=
  match o with Some s => PStr s | None => PNone end.

(** Modelled from the spec: the dictionary form of a [BlogPost] entity that
    [create_document] stores, one field per schema attribute. *)
Definition to_document (post : BlogPost.t) : doc :=
  <[ lit "title" := PStr (BlogPost.title post) ]>
  (<[ lit "topic" := PStr (BlogPost.topic post) ]>
  (<[ lit "tone" := PStr (BlogPost.tone post) ]>
  (<[ lit "keywords" := PList (BlogPost.keywords post) ]>
  (<[ lit "outline" := PList (BlogPost.outline post) ]>
  (<[ lit "content" := PStr (BlogPost.content post) ]>
  (<[ lit "length" := opt_str (BlogPost.length post) ]>
  (<[ lit "audience" := opt_str (BlogPost.audience post) ]>
  (<[ lit "status" := PStr (BlogPost.status post) ]> ∅)))))))).

(** Modelled from the spec: [database.create_document], which is not among
    the sources.  It assigns a new unique identifier, stores the record
    with a creation timestamp ([stamp], the clock reading at the call) and
    returns the identifier as a string; it fails with [None]
    (StoreUnavailable) when the backing store is unavailable. *)
Definition create_document (rt : runtime) (st : store) (stamp : N)
    (collection_name : str) (post : BlogPost.t) : option (str * store) :=
  if st_available st then
    let oid := PObjectId (st_next_id st) in
    let d := <[ lit "_id" := oid ]>
             (<[ lit "created_at" := PDatetime stamp ]> (to_document post)) in
    let old := default [] (st_collections st !! collection_name) in
    Some (rt_str rt oid,
          Store true
                (<[ collection_name := old ++ [d] ]> (st_collections st))
                (N.succ (st_next_id st)))
  else None.

(** Modelled from the spec: [database.get_documents] with the empty
    filter, which is not among the sources.  It returns at most [limit]
    records of the collection, in store retrieval order, and fails with
    [None] (StoreUnavailable) when the backing store is unavailable. *)
Definition get_documents (st : store) (collection_name : str) (limit : Z)
    : option (list doc) :=
  if st_available st then
    Some (take (Z.to_nat limit)
               (default [] (st_collections st !! collection_name)))
  else None.

(** ** Request handlers *)

(** How a handler ends: it returns a body, raises [HTTPException], or lets
    the gateway's StoreUnavailable failure escape. *)
Inductive response (A : Type) :=
| Returned (body : A)
| HTTPException (status_code : Z) (detail : str)
| StoreUnavailable.
Arguments Returned {A} body.
Arguments HTTPException {A} status_code detail.
Arguments StoreUnavailable {A}.

(** The local variables of [generate_blog] once the request is accepted. *)
Module Locals.
Record t := mk {
  topic : str;
  tone : str;
  length : str;
  keywords : list str;
  outline : list str;
  title : str;
  content : str;
}.
End Locals.

Definition length_enum : list str := [lit "short"; lit "medium"; lit "long"].

(** [x or d] for an optional string: [d] when [x] is [None] or empty. *)
Definition str_or (x : option str) (d : str) : str :=
  match x with
  | Some s => if truthy s then s else d
  | None => d
  end.

(** Lines 128-140 of [generate_blog]: validation, normalisation and
    synthesis. *)
Definition prepare (rt : runtime) (req : GenerateRequest.t)
    : response Locals.t :=
  let topic := strip (GenerateRequest.topic req) in
  if negb (truthy topic) then
    HTTPException 400 (lit "Topic cannot be empty")
  else
    let tone := if truthy (GenerateRequest.tone req)
                then strip (GenerateRequest.tone req)
                else lit "Professional" in
    let length := lower rt (str_or (GenerateRequest.length req) (lit "medium")) in
    let length := if decide (length ∈ length_enum) then length
                  else lit "medium" in
    let keywords :=
      List.map strip
        (List.filter (λ k, truthy (strip k))
                     (default [] (GenerateRequest.keywords req))) in
    let outline := generate_outline topic length in
    let title := generate_title topic tone in
    let content :=
      generate_content topic tone outline (GenerateRequest.audience req)
                       keywords in
    Returned (Locals.mk topic tone length keywords outline title content).

(** Lines 142-151: the entity handed to the store. *)
Definition make_post (req : GenerateRequest.t) (v : Locals.t) : BlogPost.t :=
  BlogPost.new (Locals.title v) (Locals.topic v) (Locals.tone v)
               (Locals.keywords v) (Locals.outline v) (Locals.content v)
               (Some (Locals.length v)) (GenerateRequest.audience req).

(** Lines 155-166: the response body; [now] is [datetime.utcnow()]. *)
Definition make_response (req : GenerateRequest.t) (v : Locals.t)
    (new_id : str) (now : N) : GenerateResponse.t :=
  GenerateResponse.mk new_id (Locals.title v) (Locals.outline v)
                      (Locals.content v) (Locals.topic v) (Locals.tone v)
                      (Locals.keywords v) (Some (Locals.length v))
                      (GenerateRequest.audience req) now.

Definition blogpost : str := lit "blogpost".

(** [POST /api/generate].  [stamp] is the clock reading the store takes
    when it files the record and [now] the one the handler takes for the
    response. *)
Definition generate_blog (rt : runtime) (req : GenerateRequest.t)
    (stamp now : N) (st : store) : response GenerateResponse.t * store :=
  match prepare rt req with
  | HTTPException code detail => (HTTPException code detail, st)
  | StoreUnavailable => (StoreUnavailable, st)
  | Returned v =>
      let post := make_post req v in
      match create_document rt st stamp blogpost post with
      | None => (StoreUnavailable, st)
      | Some (new_id, st') => (Returned (make_response req v new_id now), st')
      end
  end.

(** The sort key of [list_posts]: [d.get("created_at", datetime.min)]. *)
Definition created_key (d : doc) : pyval :=
  default datetime_min (d !! lit "created_at").

(** The body of the cleanup loop of [list_posts] on a copy of [d]. *)
Definition clean (rt : runtime) (d : doc) : doc :=
  match d !! lit "_id" with
  | Some PNone | None => d
  | Some v => <[ lit "id" := PStr (rt_str rt v) ]> (delete (lit "_id") d)
  end.

(** [GET /api/posts?limit=N] *)
Definition list_posts (rt : runtime) (limit : Z) (st : store)
    : response (list doc) :=
  match get_documents st blogpost limit with
  | None => StoreUnavailable
  | Some docs =>
      let docs := (list_sort_reverse rt created_key docs).2 in
      Returned (List.map (clean rt) docs)
  end.

(** ** Vocabulary of the specification *)

(** The fixed base sequence of section headings. *)
Definition base_outline (topic : str) : list str :=
  [ lit "Introduction";
    lit "Why " ++ topic ++ lit " Matters";
    lit "Key Principles of " ++ topic;
    lit "Practical Tips for " ++ topic;
    lit "Common Mistakes to Avoid";
    lit "Conclusion" ].

(** The headings that conclude an article or point to resources. *)
Definition closing_headings : list str :=
  [lit "Conclusion"; lit "Resources & Next Steps"].

(** The tone-to-prefix table as the specification words it: one arm per
    known tone and a default arm. *)
Definition title_prefix_of (tone : str) : str :=
  if decide (tone = lit "Professional") then lit "A Practical Guide to"
  else if decide (tone = lit "Friendly") then lit "Getting Started with"
  else if decide (tone = lit "Technical") then lit "In-Depth Look at"
  else if decide (tone = lit "Persuasive") then lit "Why You Should Care About"
  else lit "A Practical Guide to".

(** A keyword is blank when nothing is left of it after trimming. *)
Definition blank (k : str) : Prop := strip k = [].

(** A string that does not start with whitespace. *)
Definition starts_clean (s : str) : Prop :=
  match s with [] => True | c :: _ => isspace c = false end.

(** The values [prepare] computes for a request whose topic is not blank. *)
Definition accepted (rt : runtime) (req : GenerateRequest.t) : Locals.t :=
  let topic := strip (GenerateRequest.topic req) in
  let tone := if truthy (GenerateRequest.tone req)
              then strip (GenerateRequest.tone req) else lit "Professional" in
  let given := lower rt (str_or (GenerateRequest.length req) (lit "medium")) in
  let length := if decide (given ∈ length_enum) then given else lit "medium" in
  let keywords :=
    List.map strip (List.filter (λ k, truthy (strip k))
                                (default [] (GenerateRequest.keywords req))) in
  let outline := generate_outline topic length in
  Locals.mk topic tone length keywords outline (generate_title topic tone)
    (generate_content topic tone outline (GenerateRequest.audience req) keywords).

(** The creation time of a record as the listing orders it: the
    [created_at] timestamp, and [datetime.min], the oldest time there is,
    for a record without one. *)
Definition timestamp (d : doc) : N :=
  match d !! lit "created_at" with
  | Some (PDatetime t) => t
  | _ => 0%N
  end.

(** A record whose creation-time metadata, when present, is a timestamp. *)
Definition timestamped (d : doc) : Prop :=
  d !! lit "created_at" = None ∨ ∃ t, d !! lit "created_at" = Some (PDatetime t).

(** A record that carries an internal store identifier. *)
Definition identified (d : doc) : Prop :=
  ∃ v, d !! lit "_id" = Some v ∧ v ≠ PNone.

(** Items whose sort key is a timestamp, and their order by time. *)
Definition key_time (x : item) : N :=
  match x.1 with PDatetime t => t | _ => 0%N end.

Definition datetime_keyed (x : item) : Prop := ∃ t, x.1 = PDatetime t.

Definition time_le (a b : item) : Prop := (key_time a ≤ key_time b)%N.

Definition time_gt (a b : item) : Prop := (key_time b < key_time a)%N.

(** What [list.sort] guarantees, as far as the listing relies on it: the
    list afterwards holds the same items, whether or not the sort raised,
    and a list keyed by timestamps gets sorted in ascending order. *)
Record sort_contract (f : list item → sort_result) : Prop := {
  sort_permutes : ∀ l, sorted_items (f l) ≡ₚ l;
  sort_orders : ∀ l, Forall datetime_keyed l →
                ∃ l', f l = SortDone l' ∧ StronglySorted time_le l';
}.

(** The records of the collection the handlers work on, in retrieval
    order. *)
Definition stored (st : store) : list doc :=
  default [] (st_collections st !! blogpost).

(** Newest first, a record without timestamp counting as oldest. *)
Definition newer_or_equal (a b : doc) : Prop := (timestamp b ≤ timestamp a)%N.

Definition newer (a b : doc) : Prop := (timestamp b < timestamp a)%N.

(** ** Sample data *)

(** A runtime to evaluate the handlers with: identifiers and integers
    print as decimal numbers, strings as themselves. *)
Definition sample_str (v : pyval) : str :=
  match v with
  | PStr s => s
  | PObjectId n => lit (DecimalString.NilZero.string_of_uint (N.to_uint n))
  | PInt z => lit (DecimalString.NilZero.string_of_int (Z.to_int z))
  | PNone => lit "None"
  | PList _ => lit "[...]"
  | PDatetime _ => lit "datetime"
  end.

Definition sample_rt : runtime := Runtime sample_str (λ s, s) sort_short.

Definition empty_store : store := Store true ∅ 0.

Definition sample_doc (oid : N) (created_at : option pyval) : doc :=
  let d : doc := <[ lit "_id" := PObjectId oid ]> ∅ in
  match created_at with
  | Some v => <[ lit "created_at" := v ]> d
  | None => d
  end.

(** Five records, the first without creation time. *)
Definition dated_store : store :=
  Store true
        (<[ blogpost := [ sample_doc 0 None;
                          sample_doc 1 (Some (PDatetime 3));
                          sample_doc 2 (Some (PDatetime 1));
                          sample_doc 3 (Some (PDatetime 2));
                          sample_doc 4 (Some (PDatetime 7)) ] ]> ∅) 5.

(** Four records, the first with a string where the others have a
    timestamp. *)
Definition mixed_store : store :=
  Store true
        (<[ blogpost := [ sample_doc 0 (Some (PStr (lit "2024-01-01")));
                          sample_doc 1 (Some (PDatetime 3));
                          sample_doc 2 (Some (PDatetime 1));
                          sample_doc 3 (Some (PDatetime 2)) ] ]> ∅) 4.

(** The "id" fields of a listing, in the order returned. *)
Definition returned_ids (r : response (list doc)) : list (option pyval) :=
  match r with
  | Returned rs => List.map (λ d, d !! lit "id") rs
  | _ => []
  end.

Definition remote_work_request : GenerateRequest.t :=
  GenerateRequest.mk (lit "  Remote Work ") (lit "Friendly")
                     (Some [lit " hybrid "; lit "   "; lit "async"])
                     (Some (lit "short")) None.

Definition uppercase_length_request : GenerateRequest.t :=
  GenerateRequest.mk (lit "AI") (lit "Professional") None
                     (Some (lit "SHORT")) None.

(** ** The diagnostic handler *)

(** The marks that open the diagnostic messages: U+2705, U+274C and
    U+26A0 U+FE0F. *)
Definition check_mark : str := [9989%N].
Definition cross_mark : str := [10060%N].
Definition warning_sign : str := [9888%N; 65039%N].

(** What reading the [name] attribute of the database handle gives: a
    value, nothing (so that [getattr] falls back on its default), or an
    exception, represented by its [str()]. *)
Inductive attribute :=
| AttrValue (v : pyval)
| AttrMissing
| AttrRaises (message : str).

(** The module-level [db] handle as [test_database] uses it;
    [db_list_collection_names] is [None] when the call raises. *)
Record database := Database {
  db_name : attribute;
  db_list_collection_names : option (list str);
}.

(** [os.getenv(name)] is truthy when the variable is set and not empty. *)
Definition getenv_truthy (env : gmap str str) (name : str) : bool :=
  match env !! name with
  | Some v => truthy v
  | None => false
  end.

Definition set_or_not (b : bool) : pyval :=
  PStr (if b then check_mark ++ lit " Set" else cross_mark ++ lit " Not Set").

(** [GET /test] *)
Definition test_database (db : option database) (env : gmap str str) : doc :=
  let response : doc :=
    <[ lit "backend" := PStr (check_mark ++ lit " Running") ]>
    (<[ lit "database" := PStr (cross_mark ++ lit " Not Available") ]>
    (<[ lit "database_url" := PNone ]>
    (<[ lit "database_name" := PNone ]>
    (<[ lit "connection_status" := PStr (lit "Not Connected") ]>
    (<[ lit "collections" := PList [] ]> ∅))))) in
  let response :=
    match db with
    | Some handle =>
        let response :=
          <[ lit "database" := PStr (check_mark ++ lit " Connected & Working") ]>
            response in
        let response :=
          <[ lit "database_url" := PStr (check_mark ++ lit " Set") ]> response in
        match db_name handle with
        | AttrRaises message =>
            <[ lit "database" :=
                 PStr (cross_mark ++ lit " Error: " ++ take 80 message) ]>
              response
        | name =>
            let response :=
              <[ lit "database_name" :=
                   match name with
                   | AttrValue v => v
                   | _ => PStr (lit "unknown")
                   end ]> response in
            match db_list_collection_names handle with
            | Some names =>
                <[ lit "collections" := PList (take 10 names) ]> response
            | None => response
            end
        end
    | None =>
        <[ lit "database" :=
             PStr (warning_sign ++ lit " Available but not initialized") ]>
          response
    end in
  let response :=
    <[ lit "database_url" := set_or_not (getenv_truthy env (lit "DATABASE_URL")) ]>
      response in
  <[ lit "database_name" := set_or_not (getenv_truthy env (lit "DATABASE_NAME")) ]>
    response.

(** ** Further vocabulary *)

(** The four tones the dictionaries of the synthesizer list. *)
Definition known_tones : list str :=
  [lit "Professional"; lit "Friendly"; lit "Technical"; lit "Persuasive"].

(** A string made of whitespace only. *)
Definition all_space (s : str) : Prop := forallb isspace s = true.

(** The request a client builds from the fields of a response to ask for
    the same article again. *)
Definition request_of_response (resp : GenerateResponse.t) : GenerateRequest.t :=
  GenerateRequest.mk (GenerateResponse.topic resp) (GenerateResponse.tone resp)
                     (Some (GenerateResponse.keywords resp))
                     (GenerateResponse.length resp)
                     (GenerateResponse.audience resp).

(** The records created at time [t], and the items keyed by it. *)
Definition created_at_time (t : N) (d : doc) : bool := (timestamp d =? t)%N.

Definition keyed_at_time (t : N) (x : item) : bool := (key_time x =? t)%N.

(** A record without a usable identifier: no "_id", or [None] under it. *)
Definition unidentified (d : doc) : Prop :=
  d !! lit "_id" = None ∨ d !! lit "_id" = Some PNone.

(** More sample data. *)
Definition sample_database : database :=
  Database (AttrValue (PStr (lit "blog")))
           (Some (List.map (λ n, [n]) (List.map N.of_nat (seq 97 12)))).

Definition sample_env : gmap str str :=
  <[ lit "DATABASE_URL" := lit "mongodb://localhost" ]> ∅.

Definition padded_tone_request : GenerateRequest.t :=
  GenerateRequest.mk (lit " Remote Work") (lit "  ") (Some [lit " hybrid "])
                     (Some (lit "Long")) (Some (lit "managers")).

(** Four records, two of them created at the same time, and three records
    the last two of which have [None] for creation time. *)
Definition tied_store : store :=
  Store true
        (<[ blogpost := [ sample_doc 0 (Some (PDatetime 2));
                          sample_doc 1 (Some (PDatetime 5));
                          sample_doc 2 (Some (PDatetime 2));
                          sample_doc 3 None ] ]> ∅) 4.

Definition undated_store : store :=
  Store true
        (<[ blogpost := [ sample_doc 0 (Some (PDatetime 2));
                          sample_doc 1 (Some PNone);
                          sample_doc 2 (Some PNone) ] ]> ∅) 3.

Definition anonymous_store : store :=
  Store true
        (<[ blogpost := [ <[ lit "_id" := PNone ]>
                            (<[ lit "created_at" := PDatetime 1 ]> ∅);
                          <[ lit "created_at" := PDatetime 4 ]> ∅ ] ]> ∅) 0.

(* ===================================================================== *)
(** * Part II: theorems                                                  *)
(* ===================================================================== *)

Example generate_outline_short_AI :
  generate_outline (lit "AI") (lit "short") =
  [lit "Introduction"; lit "Why AI Matters"; lit "Key Principles of AI";
   lit "Practical Tips for AI"].
Proof. vm_compute. reflexivity. Qed.

Example generate_title_friendly :
  generate_title (lit "Remote Work") (lit "Friendly") =
  lit "Getting Started with Remote Work".
Proof. vm_compute. reflexivity. Qed.


(** ** The synthesizer *)

Lemma lit_short_long : lit "short" ≠ lit "long".
Proof. discriminate. Qed.

Lemma generate_outline_short topic :
  generate_outline topic (lit "short") = take 4 (base_outline topic).
Proof. unfold generate_outline. rewrite decide_True; reflexivity. Qed.

Lemma generate_outline_long topic :
  generate_outline topic (lit "long") =
  base_outline topic ++ [ lit "Case Study: " ++ topic ++ lit " in Action";
                          lit "Resources & Next Steps" ].
Proof.
  unfold generate_outline.
  rewrite decide_False by discriminate. rewrite decide_True; reflexivity.
Qed.

Lemma generate_outline_other topic length :
  length ≠ lit "short" → length ≠ lit "long" →
  generate_outline topic length = base_outline topic.
Proof.
  intros Hs Hl. unfold generate_outline.
  rewrite !decide_False by assumption. reflexivity.
Qed.

Lemma generate_outline_nonempty topic length :
  generate_outline topic length ≠ [].
Proof.
  unfold generate_outline. repeat case_decide; discriminate.
Qed.

(** C1, as stated, fails: the short outline of the topic "AI" ends with
    "Practical Tips for AI", which is neither the conclusion nor the
    resources heading. *)
Lemma generate_outline_short_ends_with_tips :
  lit "AI" ≠ [] ∧
  last (generate_outline (lit "AI") (lit "short"))
    = Some (lit "Practical Tips for AI") ∧
  ¬ (∃ h, last (generate_outline (lit "AI") (lit "short")) = Some h
          ∧ h ∈ closing_headings).
Proof.
  split; [discriminate|]. split; [reflexivity|].
  intros (h & Hlast & Hin). vm_compute in Hlast. injection Hlast as <-.
  unfold closing_headings in Hin.
  rewrite !elem_of_cons, elem_of_nil in Hin.
  destruct Hin as [H|[H|[]]]; discriminate H.
Qed.

(** C1, amended: for every topic, [generate_outline] returns the first 4
    base headings when length is "short", the 6 base headings plus the case
    study and resources headings (8 in all) when it is "long", and the 6
    base headings otherwise.  Every outline begins with "Introduction"; the
    long one ends with "Resources & Next Steps", the 6-entry one with
    "Conclusion", and the short one with "Practical Tips for {topic}". *)
Theorem generate_outline_spec (topic length : str) :
  let outline := generate_outline topic length in
  outline =
    (if decide (length = lit "short") then take 4 (base_outline topic)
     else if decide (length = lit "long") then
       base_outline topic ++ [ lit "Case Study: " ++ topic ++ lit " in Action";
                               lit "Resources & Next Steps" ]
     else base_outline topic)
  ∧ List.length outline =
    (if decide (length = lit "short") then 4
     else if decide (length = lit "long") then 8 else 6)
  ∧ head outline = Some (lit "Introduction")
  ∧ last outline =
    Some (if decide (length = lit "short") then lit "Practical Tips for " ++ topic
          else if decide (length = lit "long") then lit "Resources & Next Steps"
          else lit "Conclusion").
Proof.
  unfold generate_outline, base_outline.
  destruct (decide (length = lit "short")) as [->|Hs];
    [|destruct (decide (length = lit "long")) as [->|Hl]];
    repeat split; reflexivity.
Qed.

Lemma title_prefixes_lookup tone :
  default (lit "A Practical Guide to") (title_prefixes !! tone)
  = title_prefix_of tone.
Proof.
  unfold title_prefixes, title_prefix_of.
  repeat (case_decide; [subst; reflexivity|]).
  rewrite !lookup_insert_ne by congruence. rewrite lookup_empty. reflexivity.
Qed.

(** C3: [generate_title] returns prefix + " " + topic, where the prefix is
    the one the table gives for the tone and the Professional prefix for
    every tone the table does not list, such as "Sarcastic"; the function is
    total, so no tone makes it fail. *)
Theorem generate_title_spec (topic tone : str) :
  generate_title topic tone = title_prefix_of tone ++ lit " " ++ topic
  ∧ generate_title topic (lit "Professional")
    = lit "A Practical Guide to" ++ lit " " ++ topic
  ∧ generate_title topic (lit "Friendly")
    = lit "Getting Started with" ++ lit " " ++ topic
  ∧ generate_title topic (lit "Technical")
    = lit "In-Depth Look at" ++ lit " " ++ topic
  ∧ generate_title topic (lit "Persuasive")
    = lit "Why You Should Care About" ++ lit " " ++ topic
  ∧ generate_title topic (lit "Sarcastic")
    = lit "A Practical Guide to" ++ lit " " ++ topic
  ∧ (tone ∉ [lit "Professional"; lit "Friendly"; lit "Technical";
              lit "Persuasive"] →
     generate_title topic tone = lit "A Practical Guide to" ++ lit " " ++ topic).
Proof.
  assert (Hgen : ∀ t, generate_title topic t
                      = title_prefix_of t ++ lit " " ++ topic).
  { intros t. unfold generate_title. cbv zeta.
    rewrite title_prefixes_lookup. reflexivity. }
  split; [apply Hgen|].
  repeat (split; [rewrite Hgen; reflexivity|]).
  intros Hnot. rewrite Hgen. unfold title_prefix_of.
  rewrite !elem_of_cons, elem_of_nil in Hnot.
  repeat (case_decide; [exfalso; tauto|]). reflexivity.
Qed.

Lemma fold_left_snoc {A B} (f : A → B) (l : list A) (acc : list B) :
  fold_left (λ acc x, acc ++ [f x]) l acc = acc ++ List.map f l.
Proof.
  revert acc. induction l as [|x l IH]; intros acc; simpl.
  - rewrite app_nil_r. reflexivity.
  - rewrite IH, <- app_assoc. reflexivity.
Qed.

Lemma join_concat (sep : str) (parts : list str) :
  concat (List.map (λ b, b ++ sep) parts)
  = join sep parts ++ match parts with [] => [] | _ :: _ => sep end.
Proof.
  induction parts as [|a parts IH]; [reflexivity|].
  simpl concat. rewrite IH. destruct parts as [|b parts].
  - simpl. rewrite app_nil_r. reflexivity.
  - change (join sep (a :: b :: parts)) with (a ++ sep ++ join sep (b :: parts)).
    rewrite <- !app_assoc. reflexivity.
Qed.

(** C2: the content consists of one block per outline heading, in outline
    order; block [i] is the heading line "## " + heading [i], a blank line,
    the paragraph generated for that heading and a closing newline.  The
    blocks follow each other in the content with exactly one more newline
    between a block and the next, a blank line since every block ends its
    own last line, and nothing before the first or after the last: the
    content followed by a newline is the concatenation of the blocks, each
    followed by a newline.  There are as many blocks as headings. *)
Theorem generate_content_blocks
    (topic tone : str) (outline : list str) (audience : option str)
    (keywords : list str) :
  ∃ blocks : list str,
    generate_content topic tone outline audience keywords = join newline blocks
    ∧ List.length blocks = List.length outline
    ∧ blocks = List.map (λ h, lit "## " ++ h ++ newline ++ newline
                   ++ generate_paragraph h topic tone audience keywords
                   ++ newline) outline
    ∧ (∀ i h, outline !! i = Some h →
        blocks !! i = Some (lit "## " ++ h ++ newline ++ newline
                   ++ generate_paragraph h topic tone audience keywords
                   ++ newline))
    ∧ concat (List.map (λ b, b ++ [10%N]) blocks)
      = generate_content topic tone outline audience keywords
        ++ match outline with [] => [] | _ :: _ => [10%N] end
    ∧ (outline = [] →
       generate_content topic tone outline audience keywords = []).
Proof.
  exists (List.map (section_block topic tone audience keywords) outline).
  assert (Hblock : ∀ h, section_block topic tone audience keywords h
            = lit "## " ++ h ++ newline ++ newline
              ++ generate_paragraph h topic tone audience keywords ++ newline).
  { intros h. unfold section_block. rewrite <- !app_assoc. reflexivity. }
  assert (Hcontent : generate_content topic tone outline audience keywords
            = join newline
                (List.map (section_block topic tone audience keywords) outline)).
  { unfold generate_content. cbv zeta. rewrite fold_left_snoc. reflexivity. }
  split; [exact Hcontent|]. split; [apply length_map|].
  split; [apply map_ext; exact Hblock|]. split; [|split].
  - intros i h Hi. change (@List.map) with (@fmap list _).
    rewrite list_lookup_fmap, Hi. simpl. rewrite Hblock. reflexivity.
  - rewrite Hcontent. change [10%N] with newline.
    rewrite (join_concat newline). destruct outline; reflexivity.
  - intros ->. reflexivity.
Qed.

(** ** Trimming *)

Lemma lstrip_app_space (p s : str) :
  forallb isspace p = true → lstrip (p ++ s) = lstrip s.
Proof.
  induction p as [|c p IH]; simpl; [reflexivity|].
  intros [Hc Hp]%andb_prop. rewrite Hc. auto.
Qed.

Lemma lstrip_decomp (s : str) :
  ∃ p, s = p ++ lstrip s ∧ forallb isspace p = true.
Proof.
  induction s as [|c s (p & Hs & Hp)]; simpl.
  - exists []. split; reflexivity.
  - destruct (isspace c) eqn:Hc.
    + exists (c :: p). simpl. rewrite Hc, Hp. split; [congruence|reflexivity].
    + exists []. split; reflexivity.
Qed.

Lemma lstrip_starts_clean (s : str) : starts_clean (lstrip s).
Proof.
  induction s as [|c s IH]; simpl; [exact I|].
  destruct (isspace c) eqn:Hc; [exact IH|]. simpl. exact Hc.
Qed.

Lemma lstrip_fixed (s : str) : starts_clean s → lstrip s = s.
Proof. destruct s as [|c s]; simpl; [reflexivity|]. intros ->. reflexivity. Qed.

Lemma strip_starts_clean (s : str) : starts_clean (strip s).
Proof.
  unfold strip, rstrip.
  pose proof (lstrip_starts_clean s) as Ha.
  destruct (lstrip_decomp (rev (lstrip s))) as (p & Hrev & _).
  set (b := lstrip (rev (lstrip s))) in *.
  apply (f_equal (@rev N)) in Hrev. rewrite rev_involutive, rev_app_distr in Hrev.
  destruct (rev b) as [|c t] eqn:Hb; [exact I|].
  rewrite Hrev in Ha. exact Ha.
Qed.

Lemma strip_idempotent (s : str) : strip (strip s) = strip s.
Proof.
  pose proof (strip_starts_clean s) as Hclean.
  unfold strip at 1. rewrite (lstrip_fixed _ Hclean).
  unfold strip, rstrip. rewrite rev_involutive.
  rewrite (lstrip_fixed (lstrip _)) by apply lstrip_starts_clean.
  reflexivity.
Qed.

Lemma truthy_true (s : str) : truthy s = true ↔ s ≠ [].
Proof. destruct s; simpl; split; congruence. Qed.

Lemma truthy_false (s : str) : truthy s = false ↔ s = [].
Proof. destruct s; simpl; split; congruence. Qed.

Lemma all_space_rev (s : str) : all_space s → all_space (rev s).
Proof.
  unfold all_space. rewrite !forallb_forall. intros H c Hc%in_rev. auto.
Qed.

(** [strip] removes a run of whitespace at each end and nothing else: the
    string is whitespace, its trimmed form, whitespace, and the trimmed
    form neither starts nor ends with whitespace.  What is left is empty
    exactly when the string was whitespace throughout. *)
Theorem strip_decomposition (s : str) :
  (∃ p q, s = p ++ strip s ++ q ∧ all_space p ∧ all_space q)
  ∧ starts_clean (strip s) ∧ starts_clean (rev (strip s))
  ∧ (strip s = [] ↔ all_space s).
Proof.
  destruct (lstrip_decomp s) as (p & Hs & Hp).
  destruct (lstrip_decomp (rev (lstrip s))) as (q & Hrev & Hq).
  assert (Hdec : s = p ++ strip s ++ rev q).
  { unfold strip, rstrip. rewrite <- rev_app_distr, <- Hrev, rev_involutive.
    exact Hs. }
  split; [|split; [|split]].
  - exists p, (rev q). split; [exact Hdec|]. split; [exact Hp|].
    apply all_space_rev, Hq.
  - apply strip_starts_clean.
  - unfold strip, rstrip. rewrite rev_involutive. apply lstrip_starts_clean.
  - split.
    + intros Hnil. rewrite Hnil in Hdec. rewrite Hdec. unfold all_space.
      rewrite forallb_app. simpl. rewrite Hp. apply (all_space_rev q Hq).
    + intros Hall. unfold strip, rstrip.
      rewrite <- (app_nil_r s), (lstrip_app_space s [] Hall). reflexivity.
Qed.

(** ** [POST /api/generate] *)

Lemma prepare_blank rt req :
  strip (GenerateRequest.topic req) = [] →
  prepare rt req = HTTPException 400 (lit "Topic cannot be empty").
Proof. intros H. unfold prepare. rewrite H. reflexivity. Qed.

Lemma prepare_accepted rt req :
  strip (GenerateRequest.topic req) ≠ [] →
  prepare rt req = Returned (accepted rt req).
Proof.
  intros H%truthy_true. unfold prepare, accepted. cbv zeta.
  rewrite H. reflexivity.
Qed.

Lemma generate_blog_returned rt req stamp now st resp st' :
  generate_blog rt req stamp now st = (Returned resp, st') →
  strip (GenerateRequest.topic req) ≠ []
  ∧ create_document rt st stamp blogpost (make_post req (accepted rt req))
    = Some (GenerateResponse.id resp, st')
  ∧ resp = make_response req (accepted rt req) (GenerateResponse.id resp) now.
Proof.
  unfold generate_blog.
  destruct (decide (strip (GenerateRequest.topic req) = [])) as [He|Hne].
  - rewrite (prepare_blank _ _ He). discriminate.
  - rewrite (prepare_accepted _ _ Hne).
    destruct (create_document _ _ _ _ _) as [[new_id st'']|]; [|discriminate].
    intros [= <- <-]. auto.
Qed.

Lemma generate_blog_accepts rt req stamp now st :
  strip (GenerateRequest.topic req) ≠ [] → st_available st = true →
  ∃ new_id st',
    create_document rt st stamp blogpost (make_post req (accepted rt req))
      = Some (new_id, st')
    ∧ generate_blog rt req stamp now st
      = (Returned (make_response req (accepted rt req) new_id now), st').
Proof.
  intros Hne Hav. unfold generate_blog. rewrite (prepare_accepted _ _ Hne).
  unfold create_document. rewrite Hav. eauto.
Qed.

(** C4: [generate_blog] raises HTTP 400 "Topic cannot be empty" exactly when
    the topic is empty after trimming; it raises no other [HTTPException],
    and in that case the store is left as it was. *)
Theorem generate_blog_empty_topic rt req stamp now st :
  ((generate_blog rt req stamp now st).1
     = HTTPException 400 (lit "Topic cannot be empty")
   ↔ strip (GenerateRequest.topic req) = [])
  ∧ (∀ code detail,
       (generate_blog rt req stamp now st).1 = HTTPException code detail →
       code = 400%Z ∧ detail = lit "Topic cannot be empty")
  ∧ (strip (GenerateRequest.topic req) = [] →
     (generate_blog rt req stamp now st).2 = st).
Proof.
  unfold generate_blog.
  destruct (decide (strip (GenerateRequest.topic req) = [])) as [He|Hne].
  - rewrite (prepare_blank _ _ He). simpl. repeat split; try congruence.
    all: intros [= <- <-]; reflexivity.
  - rewrite (prepare_accepted _ _ Hne).
    destruct (create_document _ _ _ _ _) as [[new_id st'']|]; simpl;
      repeat split; try discriminate; try contradiction.
Qed.

(** The request of the specification's example: topic "Remote Work", tone
    "Friendly", length "short". *)
Example generate_blog_remote_work :
  ∃ resp st',
    generate_blog sample_rt remote_work_request 5 6 empty_store
      = (Returned resp, st')
    ∧ GenerateResponse.title resp = lit "Getting Started with Remote Work"
    ∧ GenerateResponse.outline resp
      = [lit "Introduction"; lit "Why Remote Work Matters";
         lit "Key Principles of Remote Work";
         lit "Practical Tips for Remote Work"]
    ∧ GenerateResponse.keywords resp = [lit "hybrid"; lit "async"]
    ∧ GenerateResponse.id resp = lit "0"
    ∧ length (stored st') = 1.
Proof.
  eexists _, _. split; [vm_compute; reflexivity|].
  repeat split; vm_compute; reflexivity.
Qed.

(** What the gateway files for a served request: the record of the post
    handed over, with its fields, an identifier and the store's timestamp,
    appended to the collection. *)
Lemma generate_blog_persists (rt : runtime) (req : GenerateRequest.t)
    (stamp now : N) (st st' : store) (resp : GenerateResponse.t) :
  generate_blog rt req stamp now st = (Returned resp, st') →
  ∃ d, stored st' = stored st ++ [d]
       ∧ d !! lit "_id" = Some (PObjectId (st_next_id st))
       ∧ d !! lit "created_at" = Some (PDatetime stamp)
       ∧ d !! lit "status" = Some (PStr (lit "generated"))
       ∧ d !! lit "outline" = Some (PList (GenerateResponse.outline resp))
       ∧ d !! lit "keywords" = Some (PList (GenerateResponse.keywords resp))
       ∧ d !! lit "length" = Some (opt_str (GenerateResponse.length resp)).
Proof.
  intros (Hne & Hc & Hresp)%generate_blog_returned.
  unfold create_document in Hc. destruct (st_available st); [|discriminate].
  injection Hc as Hid <-. eexists. unfold stored at 1. simpl.
  rewrite lookup_insert_eq. simpl. split; [reflexivity|].
  rewrite Hresp. simpl. unfold to_document. simpl.
  repeat split;
    repeat first [ apply lookup_insert_eq
                 | rewrite lookup_insert_ne by discriminate ].
Qed.

(** C5, as stated, fails: "SHORT" is not a member of the enum, yet the
    request is served with length "short" and a 4-heading outline, not with
    "medium". *)
Lemma generate_blog_uppercase_length_kept :
  GenerateRequest.length uppercase_length_request = Some (lit "SHORT")
  ∧ (lit "SHORT" ∉ length_enum)
  ∧ ∃ resp st',
      generate_blog sample_rt uppercase_length_request 5 6 empty_store
        = (Returned resp, st')
      ∧ GenerateResponse.length resp = Some (lit "short")
      ∧ GenerateResponse.length resp ≠ Some (lit "medium")
      ∧ List.length (GenerateResponse.outline resp) = 4
      ∧ BlogPost.length
          (make_post uppercase_length_request
                     (accepted sample_rt uppercase_length_request))
        = Some (lit "short").
Proof.
  split; [reflexivity|]. split.
  - unfold length_enum. rewrite !elem_of_cons, elem_of_nil.
    intros [H|[H|[H|[]]]]; discriminate H.
  - eexists _, _. split; [vm_compute; reflexivity|].
    repeat split; try reflexivity. discriminate.
Qed.

(** C5, amended: a request with a non-blank topic is never rejected for its
    length.  The length is lower-cased first ("medium" standing in for an
    absent or empty one); if the lower-cased value is not one of "short",
    "medium", "long" it is replaced by "medium", otherwise the lower-cased
    value is kept.  The value so obtained is the one the outline is
    generated from, the one on the [BlogPost] handed to the store and the
    one in the response. *)
Theorem generate_blog_length_normalised rt req stamp now st :
  strip (GenerateRequest.topic req) ≠ [] → st_available st = true →
  let given := lower rt (str_or (GenerateRequest.length req) (lit "medium")) in
  let used := if decide (given ∈ length_enum) then given else lit "medium" in
  used ∈ length_enum
  ∧ (given ∉ length_enum → used = lit "medium")
  ∧ ∃ resp st' post,
      generate_blog rt req stamp now st = (Returned resp, st')
      ∧ create_document rt st stamp blogpost post
        = Some (GenerateResponse.id resp, st')
      ∧ BlogPost.length post = Some used
      ∧ BlogPost.outline post
        = generate_outline (strip (GenerateRequest.topic req)) used
      ∧ GenerateResponse.length resp = Some used
      ∧ GenerateResponse.outline resp = BlogPost.outline post.
Proof.
  intros Hne Hav given used. split; [|split].
  - subst used. case_decide; [assumption|].
    unfold length_enum. set_solver.
  - intros Hnot. subst used. rewrite decide_False by assumption. reflexivity.
  - destruct (generate_blog_accepts rt req stamp now st Hne Hav)
      as (new_id & st' & Hc & Hg).
    exists (make_response req (accepted rt req) new_id now), st',
           (make_post req (accepted rt req)).
    split; [exact Hg|]. split; [exact Hc|]. repeat split.
Qed.

Lemma generate_blog_length_normalised_witness :
  let req := uppercase_length_request in
  let given := lower sample_rt (str_or (GenerateRequest.length req) (lit "medium")) in
  let used := if decide (given ∈ length_enum) then given else lit "medium" in
  used ∈ length_enum
  ∧ (given ∉ length_enum → used = lit "medium")
  ∧ ∃ resp st' post,
      generate_blog sample_rt req 5 6 empty_store = (Returned resp, st')
      ∧ create_document sample_rt empty_store 5 blogpost post
        = Some (GenerateResponse.id resp, st')
      ∧ BlogPost.length post = Some used
      ∧ BlogPost.outline post
        = generate_outline (strip (GenerateRequest.topic req)) used
      ∧ GenerateResponse.length resp = Some used
      ∧ GenerateResponse.outline resp = BlogPost.outline post.
Proof.
  apply (generate_blog_length_normalised sample_rt uppercase_length_request
           5 6 empty_store).
  - vm_compute. discriminate.
  - reflexivity.
Defined.

Lemma kept_keywords_trimmed (ks : list str) :
  Forall (λ k, ¬ blank k ∧ strip k = k)
         (List.map strip (List.filter (λ k, truthy (strip k)) ks)).
Proof.
  induction ks as [|k ks IH]; simpl; [constructor|].
  destruct (truthy (strip k)) eqn:Hk; [|exact IH].
  simpl. constructor; [|exact IH].
  unfold blank. rewrite strip_idempotent. split; [|reflexivity].
  apply truthy_true. exact Hk.
Qed.

Lemma clean_start_not_all_space (k : str) :
  k ≠ [] → starts_clean k → ¬ all_space k.
Proof.
  destruct k as [|c k]; [congruence|]. unfold all_space. simpl.
  intros _ -> H. discriminate H.
Qed.

Lemma truthy_strip_not_all_space (k : str) :
  truthy (strip k) = negb (forallb isspace k).
Proof.
  destruct (strip_decomposition k) as (_ & _ & _ & Hiff). unfold all_space in Hiff.
  destruct (forallb isspace k) eqn:Hall; simpl.
  - apply truthy_false, Hiff. reflexivity.
  - apply truthy_true. intros Hnil. apply Hiff in Hnil. discriminate Hnil.
Qed.

(** The keywords kept from a request, described without [strip]: none is
    empty or made of whitespace, none starts or ends with whitespace, and
    they are, in order, the sent keywords that are not whitespace
    throughout, each without the whitespace around it. *)
Lemma kept_keywords_described (ks : list str) :
  let kept := List.map strip (List.filter (λ k, truthy (strip k)) ks) in
  Forall (λ k, k ≠ [] ∧ ¬ all_space k ∧ starts_clean k ∧ starts_clean (rev k))
         kept
  ∧ Forall2 (λ sent k, ∃ p q, sent = p ++ k ++ q ∧ all_space p ∧ all_space q)
            (List.filter (λ k, negb (forallb isspace k)) ks) kept.
Proof.
  cbv zeta. induction ks as [|k ks [IH1 IH2]]; simpl.
  { split; constructor. }
  rewrite <- (truthy_strip_not_all_space k).
  destruct (truthy (strip k)) eqn:Hk; [|split; assumption].
  destruct (strip_decomposition k) as (Hdec & Hstart & Hend & _).
  apply truthy_true in Hk. simpl. split.
  - constructor; [|exact IH1]. split; [exact Hk|].
    split; [apply clean_start_not_all_space; assumption|]. split; assumption.
  - constructor; [exact Hdec|exact IH2].
Qed.

(** C6: the [BlogPost] that a successful [generate_blog] hands to the store
    has a non-empty outline and status "generated".  Its keywords are, in
    request order, the request's keywords that do not consist of whitespace
    only, each without the whitespace that surrounded it; so none of them
    is empty or whitespace-only and none starts or ends with whitespace. *)
Theorem generate_blog_post_invariant rt req stamp now st resp st' :
  generate_blog rt req stamp now st = (Returned resp, st') →
  ∃ post,
    create_document rt st stamp blogpost post
      = Some (GenerateResponse.id resp, st')
    ∧ BlogPost.outline post ≠ []
    ∧ BlogPost.keywords post
      = List.map strip
          (List.filter (λ k, truthy (strip k))
                       (default [] (GenerateRequest.keywords req)))
    ∧ Forall (λ k, ¬ blank k ∧ strip k = k) (BlogPost.keywords post)
    ∧ Forall (λ k, k ≠ [] ∧ forallb isspace k = false
                   ∧ starts_clean k ∧ starts_clean (rev k))
             (BlogPost.keywords post)
    ∧ Forall2 (λ sent k, ∃ p q, sent = p ++ k ++ q
                                ∧ forallb isspace p = true
                                ∧ forallb isspace q = true)
              (List.filter (λ k, negb (forallb isspace k))
                           (default [] (GenerateRequest.keywords req)))
              (BlogPost.keywords post)
    ∧ BlogPost.status post = lit "generated".
Proof.
  intros (Hne & Hc & Hresp)%generate_blog_returned.
  exists (make_post req (accepted rt req)). split; [exact Hc|].
  split; [apply generate_outline_nonempty|].
  split; [reflexivity|]. split; [apply kept_keywords_trimmed|].
  destruct (kept_keywords_described (default [] (GenerateRequest.keywords req)))
    as [Hall Hrel].
  split; [|split; [exact Hrel|reflexivity]].
  eapply Forall_impl; [exact Hall|]. intros k (H1 & H2 & H3 & H4).
  split; [exact H1|]. split; [|split; assumption].
  unfold all_space in H2. destruct (forallb isspace k); congruence.
Qed.

Lemma generate_blog_post_invariant_witness :
  ∃ resp st',
    generate_blog sample_rt remote_work_request 5 6 empty_store
      = (Returned resp, st')
    ∧ ∃ post,
        create_document sample_rt empty_store 5 blogpost post
          = Some (GenerateResponse.id resp, st')
        ∧ BlogPost.outline post ≠ []
        ∧ BlogPost.keywords post
          = List.map strip
              (List.filter (λ k, truthy (strip k))
                 (default [] (GenerateRequest.keywords remote_work_request)))
        ∧ Forall (λ k, ¬ blank k ∧ strip k = k) (BlogPost.keywords post)
        ∧ Forall (λ k, k ≠ [] ∧ forallb isspace k = false
                       ∧ starts_clean k ∧ starts_clean (rev k))
                 (BlogPost.keywords post)
        ∧ Forall2 (λ sent k, ∃ p q, sent = p ++ k ++ q
                                    ∧ forallb isspace p = true
                                    ∧ forallb isspace q = true)
                  (List.filter (λ k, negb (forallb isspace k))
                     (default [] (GenerateRequest.keywords remote_work_request)))
                  (BlogPost.keywords post)
        ∧ BlogPost.status post = lit "generated".
Proof.
  eexists _, _.
  refine ((λ H, conj H (generate_blog_post_invariant _ _ _ _ _ _ _ H)) _).
  vm_compute. reflexivity.
Defined.

(** C10: on success, the [BlogPost] handed to the store and the response
    carry the same title, outline, content, topic, tone, keywords, length
    and audience; the response adds the identifier the store returned and
    the handler's own clock reading. *)
Theorem generate_blog_response_matches_post rt req stamp now st resp st' :
  generate_blog rt req stamp now st = (Returned resp, st') →
  ∃ post,
    create_document rt st stamp blogpost post
      = Some (GenerateResponse.id resp, st')
    ∧ GenerateResponse.title resp = BlogPost.title post
    ∧ GenerateResponse.outline resp = BlogPost.outline post
    ∧ GenerateResponse.content resp = BlogPost.content post
    ∧ GenerateResponse.topic resp = BlogPost.topic post
    ∧ GenerateResponse.tone resp = BlogPost.tone post
    ∧ GenerateResponse.keywords resp = BlogPost.keywords post
    ∧ GenerateResponse.length resp = BlogPost.length post
    ∧ GenerateResponse.audience resp = BlogPost.audience post
    ∧ GenerateResponse.created_at resp = now.
Proof.
  intros (Hne & Hc & Hresp)%generate_blog_returned.
  exists (make_post req (accepted rt req)). split; [exact Hc|].
  rewrite Hresp. repeat split.
Qed.

Lemma generate_blog_response_matches_post_witness :
  ∃ resp st',
    generate_blog sample_rt remote_work_request 5 6 empty_store
      = (Returned resp, st')
    ∧ ∃ post,
        create_document sample_rt empty_store 5 blogpost post
          = Some (GenerateResponse.id resp, st')
        ∧ GenerateResponse.title resp = BlogPost.title post
        ∧ GenerateResponse.outline resp = BlogPost.outline post
        ∧ GenerateResponse.content resp = BlogPost.content post
        ∧ GenerateResponse.topic resp = BlogPost.topic post
        ∧ GenerateResponse.tone resp = BlogPost.tone post
        ∧ GenerateResponse.keywords resp = BlogPost.keywords post
        ∧ GenerateResponse.length resp = BlogPost.length post
        ∧ GenerateResponse.audience resp = BlogPost.audience post
        ∧ GenerateResponse.created_at resp = 6%N.
Proof.
  eexists _, _.
  refine ((λ H, conj H (generate_blog_response_matches_post _ _ _ _ _ _ _ H)) _).
  vm_compute. reflexivity.
Defined.

(** ** The sort of a short list *)

Lemma binarysort_loop_permutes (run rest : list item) :
  sorted_items (binarysort_loop run rest) ≡ₚ run ++ rest.
Proof.
  revert run. induction rest as [|x rest IH]; intros run; simpl.
  - rewrite app_nil_r. reflexivity.
  - destruct (bisect _ _ _ _ _) as [pos|]; simpl; [|reflexivity].
    rewrite IH, <- app_assoc. simpl.
    rewrite <- !Permutation_middle, app_assoc, take_drop. reflexivity.
Qed.

Lemma binarysort_permutes (l : list item) (start : nat) :
  sorted_items (binarysort l start) ≡ₚ l.
Proof.
  unfold binarysort. rewrite binarysort_loop_permutes, take_drop. reflexivity.
Qed.

Lemma sort_short_permutes (l : list item) : sorted_items (sort_short l) ≡ₚ l.
Proof.
  unfold sort_short.
  destruct (count_run l) as [[n descending]|]; simpl; [|reflexivity].
  assert (Hl : (if descending then rev (take n l) ++ drop n l else l) ≡ₚ l).
  { destruct descending; [|reflexivity].
    rewrite <- Permutation_rev, take_drop. reflexivity. }
  destruct (_ <? _); simpl; [rewrite binarysort_permutes|]; exact Hl.
Qed.

Lemma py_lt_time (x y : item) :
  datetime_keyed x → datetime_keyed y →
  py_lt x.1 y.1 = Some (key_time x <? key_time y)%N.
Proof.
  intros [t Hx] [u Hy]. unfold key_time. rewrite Hx, Hy. reflexivity.
Qed.

#[local] Instance time_le_trans : Transitive time_le.
Proof. unfold time_le. intros a b c. lia. Qed.

#[local] Instance time_gt_trans : Transitive time_gt.
Proof. unfold time_gt. intros a b c. lia. Qed.

Lemma StronglySorted_cons_trans {A} (R : relation A) `{!Transitive R} x y l :
  R x y → StronglySorted R (y :: l) → StronglySorted R (x :: y :: l).
Proof.
  intros Hxy Hs. constructor; [exact Hs|].
  apply StronglySorted_cons in Hs as [Hy _].
  constructor; [exact Hxy|].
  eapply Forall_impl; [exact Hy|]. intros z Hz. by transitivity y.
Qed.

Lemma StronglySorted_rev {A} (R : relation A) (l : list A) :
  StronglySorted R l → StronglySorted (flip R) (rev l).
Proof.
  induction 1 as [|x l Hs IH Hx]; simpl; [constructor|].
  apply StronglySorted_app_2; [|exact IH|repeat constructor].
  intros a b Ha%list_elem_of_In%in_rev%list_elem_of_In Hb%list_elem_of_singleton.
  subst b. rewrite Forall_forall in Hx. apply Hx. exact Ha.
Qed.

Lemma run_ascending_sorted (x : item) (l : list item) :
  datetime_keyed x → Forall datetime_keyed l →
  ∃ n, run_ascending x.1 l = Some n ∧ n ≤ length l
       ∧ StronglySorted time_le (x :: take n l).
Proof.
  intros Hx Hl. revert x Hx.
  induction Hl as [|y l Hy Hl IH]; intros x Hx; simpl.
  - exists 0. repeat split; [lia|repeat constructor].
  - rewrite (py_lt_time y x Hy Hx).
    destruct (N.ltb_spec (key_time y) (key_time x)) as [Hlt|Hge].
    + exists 0. repeat split; [lia|repeat constructor].
    + destruct (IH y Hy) as (n & -> & Hn & Hs). exists (S n). simpl.
      repeat split; [lia|]. exact (StronglySorted_cons_trans time_le _ _ _ Hge Hs).
Qed.

Lemma run_descending_sorted (x : item) (l : list item) :
  datetime_keyed x → Forall datetime_keyed l →
  ∃ n, run_descending x.1 l = Some n ∧ n ≤ length l
       ∧ StronglySorted time_gt (x :: take n l).
Proof.
  intros Hx Hl. revert x Hx.
  induction Hl as [|y l Hy Hl IH]; intros x Hx; simpl.
  - exists 0. repeat split; [lia|repeat constructor].
  - rewrite (py_lt_time y x Hy Hx).
    destruct (N.ltb_spec (key_time y) (key_time x)) as [Hlt|Hge].
    + destruct (IH y Hy) as (n & -> & Hn & Hs). exists (S n). simpl.
      repeat split; [lia|]. exact (StronglySorted_cons_trans time_gt _ _ _ Hlt Hs).
    + exists 0. repeat split; [lia|repeat constructor].
Qed.

Lemma count_run_sorted (l : list item) :
  Forall datetime_keyed l →
  ∃ n descending,
    count_run l = Some (n, descending) ∧ n ≤ length l ∧ (l ≠ [] → 0 < n)
    ∧ StronglySorted (if descending then time_gt else time_le) (take n l).
Proof.
  intros Hl. destruct Hl as [|x l Hx Hl]; simpl.
  { exists 0, false. split; [reflexivity|]. split; [lia|].
    split; [congruence|constructor]. }
  destruct Hl as [|y l Hy Hl]; simpl.
  { exists 1, false. split; [reflexivity|]. split; [lia|].
    split; [lia|repeat constructor]. }
  rewrite (py_lt_time y x Hy Hx).
  destruct (N.ltb_spec (key_time y) (key_time x)) as [Hlt|Hge].
  - destruct (run_descending_sorted y l Hy Hl) as (n & -> & Hn & Hs).
    exists (2 + n), true. simpl. split; [reflexivity|]. split; [lia|].
    split; [lia|].
    exact (StronglySorted_cons_trans time_gt _ _ _ Hlt Hs).
  - destruct (run_ascending_sorted y l Hy Hl) as (n & -> & Hn & Hs).
    exists (2 + n), false. simpl. split; [reflexivity|]. split; [lia|].
    split; [lia|].
    exact (StronglySorted_cons_trans time_le _ _ _ Hge Hs).
Qed.

Lemma sorted_around (run : list item) (p : nat) (e : item) :
  StronglySorted time_le run → run !! p = Some e →
  Forall (λ a, time_le a e) (take p run)
  ∧ Forall (time_le e) (drop (S p) run).
Proof.
  intros Hs Hp. rewrite <- (take_drop_middle run p e Hp) in Hs.
  apply StronglySorted_app in Hs as (Hcross & _ & Hr).
  apply StronglySorted_cons in Hr as [He _]. split; [|exact He].
  apply Forall_forall. intros a Ha.
  apply Hcross; [exact Ha|]. left.
Qed.

Lemma div2_below (d : nat) : 0 < d → Nat.div2 d < d.
Proof. intros Hd. apply Nat.lt_div2. exact Hd. Qed.

(** On a sorted run the binary search never gives up for lack of fuel and
    returns the slot that keeps the run sorted: everything before it is at
    most the pivot, everything from it on is greater. *)
Lemma bisect_sorted (fuel : nat) (x : item) (run : list item) (l r : nat) :
  datetime_keyed x → Forall datetime_keyed run →
  StronglySorted time_le run →
  l < r → r ≤ length run → r - l ≤ fuel →
  Forall (λ e, time_le e x) (take l run) →
  Forall (λ e, time_gt e x) (drop r run) →
  ∃ pos, bisect fuel x.1 run l r = Some pos ∧ pos ≤ length run
         ∧ Forall (λ e, time_le e x) (take pos run)
         ∧ Forall (λ e, time_gt e x) (drop pos run).
Proof.
  intros Hx Hrun Hs. revert l r.
  induction fuel as [|fuel IH]; intros l r Hlr Hr Hfuel Hlow Hhigh; [lia|].
  simpl. set (p := l + Nat.div2 (r - l)).
  assert (Hp : l ≤ p < r).
  { subst p. pose proof (div2_below (r - l)) as Hd. revert Hd.
    generalize (Nat.div2 (r - l)). intros d Hd. lia. }
  clearbody p.
  destruct (lookup_lt_is_Some_2 run p) as [e He]; [lia|]. rewrite He.
  assert (Hek : datetime_keyed e).
  { rewrite Forall_lookup in Hrun. exact (Hrun p e He). }
  rewrite (py_lt_time x e Hx Hek).
  destruct (sorted_around run p e Hs He) as [Hbefore Hafter].
  destruct (N.ltb_spec (key_time x) (key_time e)) as [Hlt|Hge].
  - assert (Hhigh' : Forall (λ a, time_gt a x) (drop p run)).
    { rewrite (drop_S run e p He). constructor; [exact Hlt|].
      eapply Forall_impl; [exact Hafter|].
      unfold time_le, time_gt in *. intros a Ha. lia. }
    destruct (Nat.ltb_spec l p) as [Hlp|Hpl].
    + apply IH; [lia|lia|lia|exact Hlow|exact Hhigh'].
    + assert (l = p) as -> by lia. exists p.
      split; [reflexivity|]. split; [lia|]. split; [exact Hlow|exact Hhigh'].
  - assert (Hlow' : Forall (λ a, time_le a x) (take (S p) run)).
    { rewrite (take_S_r run p e He). apply Forall_app. split.
      - eapply Forall_impl; [exact Hbefore|].
        unfold time_le in *. intros a Ha. lia.
      - constructor; [exact Hge|constructor]. }
    destruct (Nat.ltb_spec (S p) r) as [Hpr|Hrp].
    + apply IH; [lia|lia|lia|exact Hlow'|exact Hhigh].
    + assert (r = S p) as -> by lia. exists (S p).
      split; [reflexivity|]. split; [lia|]. split; [exact Hlow'|exact Hhigh].
Qed.

Lemma insert_sorted (run : list item) (x : item) (pos : nat) :
  StronglySorted time_le run →
  Forall (λ e, time_le e x) (take pos run) →
  Forall (λ e, time_gt e x) (drop pos run) →
  StronglySorted time_le (take pos run ++ x :: drop pos run).
Proof.
  intros Hs Hlow Hhigh. rewrite <- (take_drop pos run) in Hs.
  apply StronglySorted_app in Hs as (Hcross & Hl & Hr).
  apply StronglySorted_app_2; [|exact Hl|].
  - intros a b Ha [->|Hb]%elem_of_cons.
    + rewrite Forall_forall in Hlow. apply Hlow, Ha.
    + apply Hcross; assumption.
  - constructor; [exact Hr|]. eapply Forall_impl; [exact Hhigh|].
    unfold time_le, time_gt. intros a Ha. lia.
Qed.

Lemma binarysort_loop_sorted (run rest : list item) :
  run ≠ [] → Forall datetime_keyed run → Forall datetime_keyed rest →
  StronglySorted time_le run →
  ∃ l', binarysort_loop run rest = SortDone l' ∧ StronglySorted time_le l'.
Proof.
  intros Hne Hrun Hrest. revert run Hne Hrun.
  induction Hrest as [|x rest Hx Hrest IH]; intros run Hne Hrun Hs; simpl.
  - eauto.
  - destruct (bisect_sorted (length run) x run 0 (length run))
      as (pos & -> & Hpos & Hlow & Hhigh); try assumption.
    + destruct run; [congruence|simpl; lia].
    + lia.
    + lia.
    + constructor.
    + rewrite drop_ge by lia. constructor.
    + apply IH.
      * destruct (take pos run); discriminate.
      * apply Forall_app. split; [apply Forall_take, Hrun|].
        constructor; [exact Hx|apply Forall_drop, Hrun].
      * apply insert_sorted; assumption.
Qed.

Lemma sort_short_sorts (l : list item) :
  Forall datetime_keyed l →
  ∃ l', sort_short l = SortDone l' ∧ StronglySorted time_le l'.
Proof.
  intros Hl. unfold sort_short.
  destruct (count_run_sorted l Hl) as (n & descending & -> & Hn & Hpos & Hs).
  set (l1 := if descending then rev (take n l) ++ drop n l else l).
  assert (Hl1 : Forall datetime_keyed l1).
  { subst l1. destruct descending; [|exact Hl].
    apply Forall_app. split; [|apply Forall_drop, Hl].
    apply Forall_forall. intros a Ha%list_elem_of_In%in_rev%list_elem_of_In.
    revert a Ha. apply Forall_forall, Forall_take, Hl. }
  assert (Hlen : length l1 = length l).
  { subst l1. destruct descending; [|reflexivity].
    rewrite length_app, length_rev, length_take, length_drop. lia. }
  assert (Hrun : StronglySorted time_le (take n l1)).
  { subst l1. destruct descending; [|exact Hs].
    rewrite take_app_length' by (rewrite length_rev, length_take; lia).
    apply StronglySorted_rev in Hs. revert Hs.
    generalize (rev (take n l)). intros run Hs.
    induction Hs as [|a run Hs IH Ha]; constructor; [exact IH|].
    eapply Forall_impl; [exact Ha|].
    unfold flip, time_gt, time_le. intros b Hb. lia. }
  destruct (Nat.ltb_spec n (length l1)) as [Hlt|Hge].
  - assert (0 < n) as Hn0.
    { apply Hpos. intros ->. simpl in Hlen. lia. }
    unfold binarysort. rewrite decide_False by lia.
    apply binarysort_loop_sorted;
      [|apply Forall_take, Hl1|apply Forall_drop, Hl1|exact Hrun].
    intros Hnil. apply (f_equal (@length item)) in Hnil.
    rewrite length_take in Hnil. simpl in Hnil. lia.
  - exists l1. split; [reflexivity|]. rewrite take_ge in Hrun by lia. exact Hrun.
Qed.

Lemma sort_short_contract : sort_contract sort_short.
Proof. split; [exact sort_short_permutes|exact sort_short_sorts]. Qed.

(** ** [list.sort] as the listing calls it *)

Lemma list_sort_reverse_permutes (rt : runtime) (key : doc → pyval) (docs : list doc) :
  sort_contract (rt_sort_long rt) →
  (list_sort_reverse rt key docs).2 ≡ₚ docs.
Proof.
  intros Hlong. unfold list_sort_reverse.
  destruct (length docs <? 2); [reflexivity|]. simpl.
  set (items := rev (List.map (λ d, (key d, d)) docs)).
  assert (Hr : sorted_items (if length docs <? 64 then sort_short items
                             else rt_sort_long rt items) ≡ₚ items).
  { destruct (_ <? _); [apply sort_short_permutes|apply (sort_permutes _ Hlong)]. }
  rewrite <- Permutation_rev. rewrite (Permutation_map snd Hr). subst items.
  rewrite <- Permutation_rev, map_map. simpl. rewrite map_id. reflexivity.
Qed.

Lemma created_key_time (d : doc) :
  timestamped d →
  datetime_keyed (created_key d, d) ∧ key_time (created_key d, d) = timestamp d.
Proof.
  unfold timestamped, datetime_keyed, key_time, created_key, timestamp. simpl.
  intros [->|[t ->]]; simpl; eauto.
Qed.

Lemma StronglySorted_map_snd (l : list item) :
  Forall (λ x, key_time x = timestamp x.2) l →
  StronglySorted time_le l →
  StronglySorted (flip newer_or_equal) (List.map snd l).
Proof.
  intros Hk Hs. induction Hs as [|x l Hs IH Hx]; simpl; [constructor|].
  apply Forall_cons in Hk as [Hkx Hk]. constructor; [exact (IH Hk)|].
  clear IH Hs. induction Hx as [|y l Hy Hx IH]; simpl; [constructor|].
  apply Forall_cons in Hk as [Hky Hk]. constructor; [|exact (IH Hk)].
  unfold flip, newer_or_equal, time_le in *. rewrite <- Hkx, <- Hky. exact Hy.
Qed.

Lemma flip_flip_sorted {A} (R : relation A) (l : list A) :
  StronglySorted (flip (flip R)) l → StronglySorted R l.
Proof. intros H. exact H. Qed.

(** When every key is a timestamp the sort completes and leaves the
    records newest first. *)
Lemma list_sort_reverse_sorts (rt : runtime) (docs : list doc) :
  sort_contract (rt_sort_long rt) → Forall timestamped docs →
  (list_sort_reverse rt created_key docs).1 = false
  ∧ StronglySorted newer_or_equal (list_sort_reverse rt created_key docs).2.
Proof.
  intros Hlong Hdocs. unfold list_sort_reverse.
  destruct (Nat.ltb_spec (length docs) 2) as [Hshort|_]; simpl.
  { split; [reflexivity|].
    destruct docs as [|a [|b docs]]; simpl in Hshort; try lia;
      repeat constructor. }
  set (items := rev (List.map (λ d, (created_key d, d)) docs)).
  assert (Hitems : Forall (λ x, datetime_keyed x ∧ key_time x = timestamp x.2)
                          items).
  { subst items. apply Forall_forall.
    intros x Hx%list_elem_of_In%in_rev%in_map_iff. destruct Hx as (d & <- & Hd).
    apply created_key_time. rewrite Forall_forall in Hdocs.
    apply Hdocs, list_elem_of_In, Hd. }
  assert (Hr : ∃ l', (if length docs <? 64 then sort_short items
                      else rt_sort_long rt items) = SortDone l'
                     ∧ l' ≡ₚ items ∧ StronglySorted time_le l').
  { assert (Hkeyed : Forall datetime_keyed items).
    { eapply Forall_impl; [exact Hitems|]. intros x [Hx _]. exact Hx. }
    destruct (_ <? _).
    - destruct (sort_short_sorts items Hkeyed) as (l' & Heq & Hs).
      exists l'. split; [exact Heq|]. split; [|exact Hs].
      rewrite <- (sort_short_permutes items), Heq. reflexivity.
    - destruct (sort_orders _ Hlong items Hkeyed) as (l' & Heq & Hs).
      exists l'. split; [exact Heq|]. split; [|exact Hs].
      rewrite <- (sort_permutes _ Hlong items), Heq. reflexivity. }
  destruct Hr as (l' & -> & Hperm & Hs). simpl. split; [reflexivity|].
  apply flip_flip_sorted, StronglySorted_rev, StronglySorted_map_snd; [|exact Hs].
  rewrite Hperm. eapply Forall_impl; [exact Hitems|]. intros x [_ Hx]. exact Hx.
Qed.

(** ** Identifier cleanup *)

Lemma lit_id_ne : lit "id" ≠ lit "_id".
Proof. discriminate. Qed.

Lemma clean_identified (rt : runtime) (d : doc) (v : pyval) :
  d !! lit "_id" = Some v → v ≠ PNone →
  clean rt d = <[ lit "id" := PStr (rt_str rt v) ]> (delete (lit "_id") d).
Proof. intros Hd Hv. unfold clean. rewrite Hd. destruct v; congruence. Qed.

Lemma clean_unidentified (rt : runtime) (d : doc) :
  d !! lit "_id" = None ∨ d !! lit "_id" = Some PNone → clean rt d = d.
Proof. intros [H|H]; unfold clean; rewrite H; reflexivity. Qed.

Lemma clean_cases (rt : runtime) (d : doc) :
  (∃ v, d !! lit "_id" = Some v ∧ v ≠ PNone)
  ∨ (d !! lit "_id" = None ∨ d !! lit "_id" = Some PNone).
Proof.
  destruct (d !! lit "_id") as [v|] eqn:Hd; [|auto].
  destruct (decide (v = PNone)) as [->|Hv]; eauto.
Qed.

(** Cleanup touches no field other than "_id" and "id". *)
Lemma clean_other (rt : runtime) (d : doc) (k : str) :
  k ≠ lit "_id" → k ≠ lit "id" → clean rt d !! k = d !! k.
Proof.
  intros H1 H2. destruct (clean_cases rt d) as [(v & Hd & Hv)|Hd].
  - rewrite (clean_identified rt d v Hd Hv).
    rewrite lookup_insert_ne by congruence.
    rewrite lookup_delete_ne by congruence. reflexivity.
  - rewrite (clean_unidentified rt d Hd). reflexivity.
Qed.

Lemma clean_timestamp (rt : runtime) (d : doc) : timestamp (clean rt d) = timestamp d.
Proof.
  unfold timestamp. rewrite clean_other by discriminate. reflexivity.
Qed.

Lemma StronglySorted_map_clean (rt : runtime) (R : N → N → Prop) (l : list doc) :
  StronglySorted (λ a b, R (timestamp a) (timestamp b)) l →
  StronglySorted (λ a b, R (timestamp a) (timestamp b)) (List.map (clean rt) l).
Proof.
  induction 1 as [|x l Hs IH Hx]; simpl; constructor; [exact IH|].
  apply Forall_forall. intros y Hy%list_elem_of_In%in_map_iff.
  destruct Hy as (z & <- & Hz). rewrite !clean_timestamp.
  rewrite Forall_forall in Hx. apply Hx, list_elem_of_In, Hz.
Qed.

(** ** [GET /api/posts] *)

Lemma get_documents_available (st : store) (limit : Z) :
  st_available st = true →
  get_documents st blogpost limit = Some (take (Z.to_nat limit) (stored st)).
Proof. intros Hav. unfold get_documents, stored. rewrite Hav. reflexivity. Qed.

Lemma list_posts_returned (rt : runtime) (limit : Z) (st : store) (rs : list doc) :
  list_posts rt limit st = Returned rs →
  st_available st = true
  ∧ rs = List.map (clean rt)
           (list_sort_reverse rt created_key
              (take (Z.to_nat limit) (stored st))).2.
Proof.
  unfold list_posts, get_documents, stored.
  destruct (st_available st); [|discriminate].
  intros [= <-]. split; reflexivity.
Qed.

Lemma newer_or_equal_strict (l : list doc) :
  NoDup (List.map timestamp l) → StronglySorted newer_or_equal l →
  StronglySorted newer l.
Proof.
  intros Hnd Hs. induction Hs as [|x l Hs IH Hx]; [constructor|].
  simpl in Hnd. apply NoDup_cons in Hnd as [Hnotin Hnd].
  constructor; [exact (IH Hnd)|].
  apply Forall_forall. intros y Hy. rewrite Forall_forall in Hx.
  pose proof (Hx y Hy) as Hle. unfold newer, newer_or_equal in *.
  assert (timestamp x ≠ timestamp y); [|lia].
  intros Heq. apply Hnotin. rewrite Heq.
  apply list_elem_of_In, in_map, list_elem_of_In, Hy.
Qed.

(** C7: when the store answers and the creation-time metadata of the
    retrieved records, where present, is a timestamp, [list_posts] returns
    at most [limit] records, newest first: the timestamps never increase
    along the result, they strictly decrease when they are distinct, and a
    record without creation time counts as created at [datetime.min], so no
    record placed after it has a later timestamp. *)
Theorem list_posts_newest_first (rt : runtime) (limit : Z) (st : store) :
  sort_contract (rt_sort_long rt) →
  st_available st = true → (0 ≤ limit)%Z →
  Forall timestamped (take (Z.to_nat limit) (stored st)) →
  ∃ rs,
    list_posts rt limit st = Returned rs
    ∧ (Z.of_nat (length rs) ≤ limit)%Z
    ∧ rs ≡ₚ List.map (clean rt) (take (Z.to_nat limit) (stored st))
    ∧ StronglySorted newer_or_equal rs
    ∧ (NoDup (List.map timestamp rs) → StronglySorted newer rs)
    ∧ (∀ i j a b, i < j → rs !! i = Some a → rs !! j = Some b →
         a !! lit "created_at" = None → timestamp b = 0%N).
Proof.
  intros Hlong Hav Hlimit Hdocs.
  set (docs := take (Z.to_nat limit) (stored st)) in *.
  pose proof (list_sort_reverse_permutes rt created_key docs Hlong) as Hperm.
  destruct (list_sort_reverse_sorts rt docs Hlong Hdocs) as [_ Hsorted].
  set (sorted := (list_sort_reverse rt created_key docs).2) in *.
  assert (Hrs : StronglySorted newer_or_equal (List.map (clean rt) sorted)).
  { exact (StronglySorted_map_clean rt (λ a b, (b ≤ a)%N) sorted Hsorted). }
  exists (List.map (clean rt) sorted).
  split. { unfold list_posts. rewrite (get_documents_available st limit Hav).
           reflexivity. }
  split. { rewrite length_map, Hperm. subst docs. rewrite length_take. lia. }
  split. { apply Permutation_map, Hperm. }
  split; [exact Hrs|]. split; [intros Hnd; exact (newer_or_equal_strict _ Hnd Hrs)|].
  intros i j a b Hij Hi Hj Ha.
  assert (Hab : newer_or_equal a b).
  { rewrite <- (take_drop_middle _ i a Hi) in Hrs.
    apply StronglySorted_app_1_r, StronglySorted_cons in Hrs as [Hfa _].
    rewrite Forall_lookup in Hfa. apply (Hfa (j - S i)).
    rewrite lookup_drop. replace (S i + (j - S i)) with j by lia. exact Hj. }
  unfold newer_or_equal, timestamp in Hab. rewrite Ha in Hab.
  unfold timestamp in *. lia.
Qed.

Ltac prove_timestamped :=
  repeat (constructor;
          [first [left; reflexivity | right; eexists; reflexivity]|]);
  try constructor.

Lemma list_posts_newest_first_witness :
  ∃ rs,
    list_posts sample_rt 4 dated_store = Returned rs
    ∧ (Z.of_nat (length rs) ≤ 4)%Z
    ∧ rs ≡ₚ List.map (clean sample_rt) (take (Z.to_nat 4) (stored dated_store))
    ∧ StronglySorted newer_or_equal rs
    ∧ (NoDup (List.map timestamp rs) → StronglySorted newer rs)
    ∧ (∀ i j a b, i < j → rs !! i = Some a → rs !! j = Some b →
         a !! lit "created_at" = None → timestamp b = 0%N).
Proof.
  apply (list_posts_newest_first sample_rt 4 dated_store).
  - exact sort_short_contract.
  - reflexivity.
  - lia.
  - vm_compute. prove_timestamped.
Defined.

Example list_posts_dated_store :
  returned_ids (list_posts sample_rt 10 dated_store)
  = [Some (PStr (lit "4")); Some (PStr (lit "1")); Some (PStr (lit "3"));
     Some (PStr (lit "2")); Some (PStr (lit "0"))].
Proof. vm_compute. reflexivity. Qed.

(** Whatever the record, cleanup leaves no identifier value under "_id". *)
Lemma clean_no_raw_identifier (rt : runtime) (d : doc) :
  clean rt d !! lit "_id" = None ∨ clean rt d !! lit "_id" = Some PNone.
Proof.
  destruct (clean_cases rt d) as [(v & Hd & Hv)|Hd].
  - left. rewrite (clean_identified rt d v Hd Hv).
    rewrite lookup_insert_ne by discriminate. apply lookup_delete_eq.
  - rewrite (clean_unidentified rt d Hd). tauto.
Qed.

(** The gateway gives every record it files an identifier and a
    timestamp. *)
Lemma create_document_identified (rt : runtime) (st st' : store) (stamp : N)
    (post : BlogPost.t) (new_id : str) :
  create_document rt st stamp blogpost post = Some (new_id, st') →
  Forall identified (stored st) →
  Forall identified (stored st') ∧ length (stored st') = S (length (stored st)).
Proof.
  unfold create_document, stored. destruct (st_available st); [|discriminate].
  intros [= <- <-] Hst. simpl. rewrite lookup_insert_eq. simpl.
  split; [|rewrite length_app; simpl; lia].
  apply Forall_app. split; [exact Hst|]. constructor; [|constructor].
  exists (PObjectId (st_next_id st)). split; [|discriminate].
  apply lookup_insert_eq.
Qed.

(** C8, as stated, fails: [anonymous_store] holds a record with [None]
    under "_id" and a record without "_id"; the first comes back with its
    "_id" field and neither gets an "id" field. *)
Lemma list_posts_null_identifier_stays :
  ∃ rs,
    list_posts sample_rt 10 anonymous_store = Returned rs
    ∧ ¬ Forall (λ r, r !! lit "_id" = None
                     ∧ ∃ s, r !! lit "id" = Some (PStr s)) rs
    ∧ (∃ r, r ∈ rs ∧ r !! lit "_id" = Some PNone ∧ r !! lit "id" = None)
    ∧ (∃ r, r ∈ rs ∧ r !! lit "_id" = None ∧ r !! lit "id" = None).
Proof.
  eexists. split; [vm_compute; reflexivity|]. split; [|split].
  - intros H. apply Forall_cons in H as [[_ [s Hs]] _].
    vm_compute in Hs. discriminate Hs.
  - eexists. split; [right; left|]. split; vm_compute; reflexivity.
  - eexists. split; [left|]. split; vm_compute; reflexivity.
Qed.

(** C8, amended: every record [list_posts] returns comes from a stored
    record and agrees with it on all fields other than "_id" and "id".  If
    the stored record has a value other than [None] under "_id", the
    returned record has that identifier rendered by [str()] as the string
    field "id" and has no "_id" field; if the stored record has no "_id",
    or [None] under it, it is returned unchanged. *)
Theorem list_posts_renders_identifiers (rt : runtime) (limit : Z) (st : store)
    (rs : list doc) :
  sort_contract (rt_sort_long rt) →
  list_posts rt limit st = Returned rs →
  Forall (λ r, ∃ d, d ∈ stored st
                    ∧ (∀ k, k ≠ lit "_id" → k ≠ lit "id" → r !! k = d !! k)
                    ∧ ((∃ v, d !! lit "_id" = Some v ∧ v ≠ PNone
                             ∧ r !! lit "_id" = None
                             ∧ r !! lit "id" = Some (PStr (rt_str rt v)))
                       ∨ ((d !! lit "_id" = None ∨ d !! lit "_id" = Some PNone)
                          ∧ r = d)))
         rs.
Proof.
  intros Hlong (Hav & ->)%list_posts_returned.
  apply Forall_forall. intros r Hr%list_elem_of_In%in_map_iff.
  destruct Hr as (d & <- & Hd%list_elem_of_In).
  rewrite (list_sort_reverse_permutes rt created_key _ Hlong) in Hd.
  apply elem_of_take in Hd as (i & Hd%list_elem_of_lookup_2 & _).
  exists d. split; [exact Hd|].
  split; [intros k Hk1 Hk2; apply clean_other; assumption|].
  destruct (clean_cases rt d) as [(v & Hv & Hnone)|Hun].
  - left. exists v. split; [exact Hv|]. split; [exact Hnone|].
    rewrite (clean_identified rt d v Hv Hnone). split.
    + rewrite lookup_insert_ne by discriminate. apply lookup_delete_eq.
    + apply lookup_insert_eq.
  - right. split; [exact Hun|]. apply clean_unidentified, Hun.
Qed.

Lemma list_posts_renders_identifiers_witness :
  ∃ rs,
    list_posts sample_rt 10 dated_store = Returned rs
    ∧ Forall (λ r, ∃ d, d ∈ stored dated_store
                        ∧ (∀ k, k ≠ lit "_id" → k ≠ lit "id" → r !! k = d !! k)
                        ∧ ((∃ v, d !! lit "_id" = Some v ∧ v ≠ PNone
                                 ∧ r !! lit "_id" = None
                                 ∧ r !! lit "id"
                                   = Some (PStr (rt_str sample_rt v)))
                           ∨ ((d !! lit "_id" = None
                               ∨ d !! lit "_id" = Some PNone)
                              ∧ r = d)))
             rs.
Proof.
  eexists. split; [reflexivity|].
  apply (list_posts_renders_identifiers sample_rt 10 dated_store).
  - exact sort_short_contract.
  - reflexivity.
Defined.

(** C9, as stated, fails: in [mixed_store] the first record has a string
    under "created_at", the sort raises, the request completes, and the
    records come back with the third and fourth exchanged, not in the
    store's order. *)
Lemma list_posts_failed_sort_reorders :
  (list_sort_reverse sample_rt created_key (stored mixed_store)).1 = true
  ∧ get_documents mixed_store blogpost 10 = Some (stored mixed_store)
  ∧ returned_ids (Returned (List.map (clean sample_rt) (stored mixed_store)))
    = [Some (PStr (lit "0")); Some (PStr (lit "1")); Some (PStr (lit "2"));
       Some (PStr (lit "3"))]
  ∧ returned_ids (list_posts sample_rt 10 mixed_store)
    = [Some (PStr (lit "0")); Some (PStr (lit "1")); Some (PStr (lit "3"));
       Some (PStr (lit "2"))]
  ∧ list_posts sample_rt 10 mixed_store
    ≠ Returned (List.map (clean sample_rt) (stored mixed_store)).
Proof.
  split; [vm_compute; reflexivity|]. split; [reflexivity|].
  split; [vm_compute; reflexivity|].
  assert (Hids : returned_ids (list_posts sample_rt 10 mixed_store)
                 = [Some (PStr (lit "0")); Some (PStr (lit "1"));
                    Some (PStr (lit "3")); Some (PStr (lit "2"))])
    by (vm_compute; reflexivity).
  split; [exact Hids|].
  intros Heq. rewrite Heq in Hids. vm_compute in Hids. discriminate Hids.
Qed.

(** C9, amended: the sorting and cleanup steps never raise.  Whenever the
    store answers, [list_posts] completes, whether or not the sort raised,
    and returns each retrieved record exactly once with identifier cleanup
    applied; after a sort that raised the records are in the order the
    interrupted in-place sort left them, and with fewer than two records
    that is the store's order. *)
Theorem list_posts_completes (rt : runtime) (limit : Z) (st : store) :
  sort_contract (rt_sort_long rt) →
  st_available st = true →
  ∃ docs rs,
    get_documents st blogpost limit = Some docs
    ∧ list_posts rt limit st = Returned rs
    ∧ rs = List.map (clean rt) (list_sort_reverse rt created_key docs).2
    ∧ rs ≡ₚ List.map (clean rt) docs
    ∧ (length docs < 2 → rs = List.map (clean rt) docs).
Proof.
  intros Hlong Hav.
  exists (take (Z.to_nat limit) (stored st)). eexists.
  split; [apply get_documents_available, Hav|].
  split. { unfold list_posts. rewrite (get_documents_available st limit Hav).
           reflexivity. }
  split; [reflexivity|]. split.
  - apply Permutation_map, list_sort_reverse_permutes, Hlong.
  - intros Hlen. unfold list_sort_reverse.
    destruct (Nat.ltb_spec (length (take (Z.to_nat limit) (stored st))) 2);
      [reflexivity|lia].
Qed.

Lemma list_posts_completes_witness :
  ∃ docs rs,
    get_documents mixed_store blogpost 10 = Some docs
    ∧ list_posts sample_rt 10 mixed_store = Returned rs
    ∧ rs = List.map (clean sample_rt)
             (list_sort_reverse sample_rt created_key docs).2
    ∧ rs ≡ₚ List.map (clean sample_rt) docs
    ∧ (length docs < 2 → rs = List.map (clean sample_rt) docs).
Proof.
  apply (list_posts_completes sample_rt 10 mixed_store).
  - exact sort_short_contract.
  - reflexivity.
Defined.

(* ===================================================================== *)
(** * Part III: further properties of the code                           *)
(* ===================================================================== *)

(** ** Paragraphs and content *)

Lemma generate_paragraph_take
    (heading topic tone : str) (audience : option str) (keywords : list str) :
  generate_paragraph heading topic tone audience keywords
  = generate_paragraph heading topic tone audience (take 3 keywords).
Proof.
  unfold generate_paragraph. destruct keywords as [|k keywords]; [reflexivity|].
  cbv zeta. change (take 3 (k :: keywords)) with (k :: take 2 keywords).
  cbv iota. change (k :: take 2 keywords) with (take 3 (k :: keywords)).
  rewrite take_take. reflexivity.
Qed.

(** X1: The paragraph uses the first three keywords only, and a request
    without keywords reads as if the topic were its one keyword. *)
Theorem generate_paragraph_keywords
    (heading topic tone : str) (audience : option str) (keywords : list str) :
  generate_paragraph heading topic tone audience keywords
  = generate_paragraph heading topic tone audience (take 3 keywords)
  ∧ generate_paragraph heading topic tone audience []
    = generate_paragraph heading topic tone audience [topic].
Proof. split; [apply generate_paragraph_take|reflexivity]. Qed.

Lemma paragraph_styles_unknown (tone : str) :
  tone ∉ known_tones → paragraph_styles !! tone = None.
Proof.
  unfold known_tones, paragraph_styles.
  rewrite !not_elem_of_cons. intros (H1 & H2 & H3 & H4 & _).
  rewrite !lookup_insert_ne by congruence. apply lookup_empty.
Qed.

Lemma generate_paragraph_unknown_tone
    (heading topic tone : str) (audience : option str) (keywords : list str) :
  tone ∉ known_tones →
  generate_paragraph heading topic tone audience keywords
  = generate_paragraph heading topic (lit "Professional") audience keywords.
Proof.
  intros Htone. unfold generate_paragraph.
  rewrite (paragraph_styles_unknown tone Htone). reflexivity.
Qed.

Lemma generate_title_prefix (topic tone : str) :
  generate_title topic tone = title_prefix_of tone ++ lit " " ++ topic.
Proof.
  unfold generate_title. cbv zeta. rewrite title_prefixes_lookup. reflexivity.
Qed.

Lemma generate_content_map
    (topic tone : str) (outline : list str) (audience : option str)
    (keywords : list str) :
  generate_content topic tone outline audience keywords
  = join newline (List.map (section_block topic tone audience keywords) outline).
Proof. unfold generate_content. cbv zeta. rewrite fold_left_snoc. reflexivity. Qed.

Lemma generate_title_unknown_tone (topic tone : str) :
  tone ∉ known_tones →
  generate_title topic tone = generate_title topic (lit "Professional").
Proof.
  intros Htone.
  rewrite !generate_title_prefix. unfold title_prefix_of, known_tones in *.
  rewrite !not_elem_of_cons in Htone. destruct Htone as (H1 & H2 & H3 & H4 & _).
  rewrite !decide_False by assumption. reflexivity.
Qed.

Lemma generate_content_unknown_tone
    (topic tone : str) (outline : list str) (audience : option str)
    (keywords : list str) :
  tone ∉ known_tones →
  generate_content topic tone outline audience keywords
  = generate_content topic (lit "Professional") outline audience keywords.
Proof.
  intros Htone. rewrite !generate_content_map. f_equal. apply map_ext. intros h.
  unfold section_block.
  rewrite (generate_paragraph_unknown_tone h topic tone audience keywords Htone).
  reflexivity.
Qed.

(** X2: A tone outside the four listed ones gives the Professional title, and
    the content it gives is the Professional content, heading by
    heading. *)
Theorem unknown_tone_is_professional
    (topic tone : str) (outline : list str) (audience : option str)
    (keywords : list str) :
  tone ∉ known_tones →
  generate_title topic tone = generate_title topic (lit "Professional")
  ∧ generate_content topic tone outline audience keywords
    = generate_content topic (lit "Professional") outline audience keywords.
Proof.
  intros Htone. split.
  - apply generate_title_unknown_tone, Htone.
  - apply generate_content_unknown_tone, Htone.
Qed.

Lemma unknown_tone_is_professional_witness :
  generate_title (lit "AI") (lit "Sarcastic")
  = generate_title (lit "AI") (lit "Professional")
  ∧ generate_content (lit "AI") (lit "Sarcastic") [lit "Introduction"] None []
    = generate_content (lit "AI") (lit "Professional") [lit "Introduction"]
                       None [].
Proof.
  apply (unknown_tone_is_professional (lit "AI") (lit "Sarcastic")).
  unfold known_tones. rewrite !not_elem_of_cons.
  repeat split; try discriminate. apply not_elem_of_nil.
Defined.

(** X3: An empty audience is no audience, and keywords past the third leave
    the content unchanged. *)
Theorem generate_content_ignores
    (topic tone : str) (outline : list str) (audience : option str)
    (keywords : list str) :
  generate_content topic tone outline (Some []) keywords
  = generate_content topic tone outline None keywords
  ∧ generate_content topic tone outline audience keywords
    = generate_content topic tone outline audience (take 3 keywords).
Proof.
  rewrite !generate_content_map. split; [reflexivity|].
  f_equal. apply map_ext. intros h. unfold section_block.
  rewrite (generate_paragraph_take h topic tone audience keywords).
  reflexivity.
Qed.

Lemma join_app (sep : str) (l1 l2 : list str) :
  l1 ≠ [] → l2 ≠ [] →
  join sep (l1 ++ l2) = join sep l1 ++ sep ++ join sep l2.
Proof.
  intros H1 H2. induction l1 as [|a l1 IH]; [congruence|].
  destruct l1 as [|b l1].
  - destruct l2; [congruence|reflexivity].
  - change (join sep ((a :: b :: l1) ++ l2))
      with (a ++ sep ++ join sep ((b :: l1) ++ l2)).
    rewrite IH by discriminate.
    change (join sep (a :: b :: l1)) with (a ++ sep ++ join sep (b :: l1)).
    rewrite <- !app_assoc. reflexivity.
Qed.

(** X4: The content of an outline made of two non-empty parts is the content
    of the first part, a newline, and the content of the second part. *)
Theorem generate_content_app
    (topic tone : str) (outline1 outline2 : list str) (audience : option str)
    (keywords : list str) :
  outline1 ≠ [] → outline2 ≠ [] →
  generate_content topic tone (outline1 ++ outline2) audience keywords
  = generate_content topic tone outline1 audience keywords
    ++ newline
    ++ generate_content topic tone outline2 audience keywords.
Proof.
  intros H1 H2. rewrite !generate_content_map, List.map_app.
  apply join_app; intros Hnil; apply map_eq_nil in Hnil; contradiction.
Qed.

Lemma generate_content_app_witness :
  generate_content (lit "AI") (lit "Friendly")
                   ([lit "Introduction"] ++ [lit "Conclusion"]) None []
  = generate_content (lit "AI") (lit "Friendly") [lit "Introduction"] None []
    ++ newline
    ++ generate_content (lit "AI") (lit "Friendly") [lit "Conclusion"] None [].
Proof.
  apply (generate_content_app (lit "AI") (lit "Friendly")); discriminate.
Defined.

(** X5: The content is empty exactly when the outline is; otherwise it opens
    with the heading line of the first section. *)
Theorem generate_content_empty
    (topic tone : str) (outline : list str) (audience : option str)
    (keywords : list str) :
  (generate_content topic tone outline audience keywords = [] ↔ outline = [])
  ∧ ∀ h rest, outline = h :: rest →
      ∃ tail, generate_content topic tone outline audience keywords
              = lit "## " ++ h ++ newline ++ tail.
Proof.
  rewrite generate_content_map.
  assert (Hopen : ∀ h rest, ∃ tail,
             join newline (List.map (section_block topic tone audience keywords)
                                    (h :: rest))
             = lit "## " ++ h ++ newline ++ tail).
  { intros h rest. simpl List.map. unfold section_block at 1.
    destruct (List.map _ rest) as [|b bs]; simpl join;
      rewrite <- !app_assoc; eexists; reflexivity. }
  split.
  - split; [|intros ->; reflexivity].
    destruct outline as [|h rest]; [reflexivity|].
    destruct (Hopen h rest) as [tail ->]. discriminate.
  - intros h rest ->. apply Hopen.
Qed.

(** ** Outlines and titles *)

(** X6: The three outlines are nested: the short outline is a prefix of every
    outline, and every outline is a prefix of the long one. *)
Theorem generate_outline_nested (topic length : str) :
  generate_outline topic (lit "short") `prefix_of` generate_outline topic length
  ∧ generate_outline topic length `prefix_of` generate_outline topic (lit "long").
Proof.
  rewrite generate_outline_short, generate_outline_long.
  destruct (decide (length = lit "short")) as [->|Hs];
    [|destruct (decide (length = lit "long")) as [->|Hl]].
  - rewrite generate_outline_short. split; [reflexivity|].
    unfold base_outline. eexists. reflexivity.
  - rewrite generate_outline_long. split; [|reflexivity].
    unfold base_outline. eexists. reflexivity.
  - rewrite (generate_outline_other topic length Hs Hl). split.
    + unfold base_outline. eexists. reflexivity.
    + eexists. reflexivity.
Qed.

(** X7: Whatever the topic, no heading occurs twice in an outline. *)
Theorem generate_outline_NoDup (topic length : str) :
  NoDup (generate_outline topic length).
Proof.
  assert (Hlong : NoDup (generate_outline topic (lit "long"))).
  { rewrite generate_outline_long. unfold base_outline. simpl.
    repeat (apply NoDup_cons; split;
            [rewrite ?not_elem_of_cons; repeat split;
             first [discriminate | apply not_elem_of_nil]|]).
    apply NoDup_nil_2. }
  rewrite generate_outline_long in Hlong. unfold base_outline in Hlong.
  destruct (decide (length = lit "short")) as [->|Hs];
    [|destruct (decide (length = lit "long")) as [->|Hl]].
  - rewrite generate_outline_short. unfold base_outline. simpl.
    apply (NoDup_app [_; _; _; _]) in Hlong as [H _]. exact H.
  - rewrite generate_outline_long. exact Hlong.
  - rewrite (generate_outline_other topic length Hs Hl). unfold base_outline.
    apply (NoDup_app [_; _; _; _; _; _]) in Hlong as [H _]. exact H.
Qed.

(** X8: For one tone, different topics get different titles, and a title is
    never empty. *)
Theorem generate_title_injective (topic1 topic2 tone : str) :
  (generate_title topic1 tone = generate_title topic2 tone → topic1 = topic2)
  ∧ generate_title topic1 tone ≠ [].
Proof.
  rewrite !generate_title_prefix. split.
  - intros H. apply app_inv_head in H. apply app_inv_head in H. exact H.
  - intros H. apply app_eq_nil in H as [_ H]. discriminate H.
Qed.

(** ** Trimming, and what the generation handler does with it *)

(** X9: [generate_blog] answers 400 exactly for the topics made of whitespace
    only, the empty topic among them. *)
Theorem generate_blog_rejects_whitespace_topics rt req stamp now st :
  (generate_blog rt req stamp now st).1
    = HTTPException 400 (lit "Topic cannot be empty")
  ↔ all_space (GenerateRequest.topic req).
Proof.
  destruct (strip_decomposition (GenerateRequest.topic req))
    as (_ & _ & _ & <-).
  unfold generate_blog.
  destruct (decide (strip (GenerateRequest.topic req) = [])) as [He|Hne].
  - rewrite (prepare_blank _ _ He). simpl. tauto.
  - rewrite (prepare_accepted _ _ Hne).
    destruct (create_document _ _ _ _ _) as [[new_id st'']|]; simpl;
      split; try discriminate; contradiction.
Qed.

Lemma lower_enum (rt : runtime) (l : str) :
  l ∈ length_enum → lower rt l = l.
Proof.
  unfold length_enum. rewrite !elem_of_cons, elem_of_nil.
  intros [->|[->|[->|[]]]]; reflexivity.
Qed.

Lemma accepted_length_enum (rt : runtime) (req : GenerateRequest.t) :
  Locals.length (accepted rt req) ∈ length_enum.
Proof.
  unfold accepted. simpl. case_decide; [assumption|].
  unfold length_enum. set_solver.
Qed.

Lemma enum_truthy (l : str) : l ∈ length_enum → truthy l = true.
Proof.
  unfold length_enum. rewrite !elem_of_cons, elem_of_nil.
  intros [->|[->|[->|[]]]]; reflexivity.
Qed.

Lemma keywords_refilter (ks : list str) :
  Forall (λ k, ¬ blank k ∧ strip k = k) ks →
  List.map strip (List.filter (λ k, truthy (strip k)) ks) = ks.
Proof.
  induction 1 as [|k ks [Hk Heq] _ IH]; simpl; [reflexivity|].
  apply truthy_true in Hk. rewrite Hk. simpl. rewrite Heq, IH. reflexivity.
Qed.

Lemma empty_tone_unknown : [] ∉ known_tones.
Proof.
  unfold known_tones. rewrite !not_elem_of_cons.
  repeat split; try discriminate. apply not_elem_of_nil.
Qed.

(** The tone a request ends up with, and the tone it ends up with when
    that one is sent again. *)
Lemma tone_again (tone : str) :
  let kept := if truthy tone then strip tone else lit "Professional" in
  let again := if truthy kept then strip kept else lit "Professional" in
  again = kept ∨ (kept = [] ∧ again = lit "Professional").
Proof.
  cbv zeta. destruct (truthy tone) eqn:Ht.
  - destruct (truthy (strip tone)) eqn:Hs.
    + left. apply strip_idempotent.
    + right. apply truthy_false in Hs. auto.
  - left. reflexivity.
Qed.

(** X10: The response describes itself: its title and content are what the
    synthesizer gives for its own topic, tone, outline, audience and
    keywords, its outline is the one of its own length and has 4, 6 or 8
    headings, its topic is the request's topic trimmed and its audience the
    request's audience as sent. *)
Theorem generate_blog_response_consistent rt req stamp now st resp st' :
  generate_blog rt req stamp now st = (Returned resp, st') →
  GenerateResponse.title resp
    = generate_title (GenerateResponse.topic resp) (GenerateResponse.tone resp)
  ∧ GenerateResponse.content resp
    = generate_content (GenerateResponse.topic resp) (GenerateResponse.tone resp)
        (GenerateResponse.outline resp) (GenerateResponse.audience resp)
        (GenerateResponse.keywords resp)
  ∧ (∃ l, GenerateResponse.length resp = Some l ∧ l ∈ length_enum
          ∧ GenerateResponse.outline resp
            = generate_outline (GenerateResponse.topic resp) l)
  ∧ length (GenerateResponse.outline resp) ∈ [4; 6; 8]
  ∧ GenerateResponse.topic resp = strip (GenerateRequest.topic req)
  ∧ GenerateResponse.audience resp = GenerateRequest.audience req.
Proof.
  intros (Hne & Hc & ->)%generate_blog_returned.
  pose proof (accepted_length_enum rt req) as Henum.
  assert (Hout : Locals.outline (accepted rt req)
                 = generate_outline (strip (GenerateRequest.topic req))
                                    (Locals.length (accepted rt req)))
    by reflexivity.
  unfold make_response.
  cbn [GenerateResponse.title GenerateResponse.content GenerateResponse.topic
       GenerateResponse.tone GenerateResponse.outline GenerateResponse.audience
       GenerateResponse.keywords GenerateResponse.length].
  split; [reflexivity|]. split; [reflexivity|].
  split; [eexists; split; [reflexivity|split; [exact Henum|exact Hout]]|].
  split; [|split; reflexivity].
  rewrite Hout.
  unfold length_enum in Henum. rewrite !elem_of_cons, elem_of_nil in Henum.
  destruct Henum as [Hl|[Hl|[Hl|[]]]]; rewrite Hl.
  - rewrite generate_outline_short. simpl. set_solver.
  - rewrite generate_outline_other by discriminate. simpl. set_solver.
  - rewrite generate_outline_long. simpl. set_solver.
Qed.

Lemma generate_blog_response_consistent_witness :
  ∃ resp st',
    generate_blog sample_rt padded_tone_request 5 6 empty_store
      = (Returned resp, st')
    ∧ (GenerateResponse.title resp
         = generate_title (GenerateResponse.topic resp)
                          (GenerateResponse.tone resp)
       ∧ GenerateResponse.content resp
         = generate_content (GenerateResponse.topic resp)
             (GenerateResponse.tone resp) (GenerateResponse.outline resp)
             (GenerateResponse.audience resp) (GenerateResponse.keywords resp)
       ∧ (∃ l, GenerateResponse.length resp = Some l ∧ l ∈ length_enum
               ∧ GenerateResponse.outline resp
                 = generate_outline (GenerateResponse.topic resp) l)
       ∧ length (GenerateResponse.outline resp) ∈ [4; 6; 8]
       ∧ GenerateResponse.topic resp
         = strip (GenerateRequest.topic padded_tone_request)
       ∧ GenerateResponse.audience resp
         = GenerateRequest.audience padded_tone_request).
Proof.
  eexists _, _.
  refine ((λ H, conj H (generate_blog_response_consistent _ _ _ _ _ _ _ H)) _).
  vm_compute. reflexivity.
Defined.

(** X11: An empty tone is replaced by "Professional"; a tone of whitespace only
    is not: it is trimmed to the empty string, which is what the response
    reports, while the title takes the Professional prefix. *)
Theorem generate_blog_blank_tone rt req stamp now st resp st' :
  generate_blog rt req stamp now st = (Returned resp, st') →
  all_space (GenerateRequest.tone req) →
  (GenerateRequest.tone req = [] →
   GenerateResponse.tone resp = lit "Professional")
  ∧ (GenerateRequest.tone req ≠ [] → GenerateResponse.tone resp = [])
  ∧ GenerateResponse.title resp
    = lit "A Practical Guide to" ++ lit " " ++ GenerateResponse.topic resp.
Proof.
  intros (Hne & Hc & ->)%generate_blog_returned Hall. simpl.
  destruct (strip_decomposition (GenerateRequest.tone req))
    as (_ & _ & _ & Hiff).
  apply Hiff in Hall.
  destruct (GenerateRequest.tone req) as [|c tone] eqn:Htone.
  - split; [reflexivity|]. split; [congruence|reflexivity].
  - split; [discriminate|]. simpl truthy. cbv iota. rewrite Hall.
    split; [reflexivity|]. rewrite generate_title_prefix. reflexivity.
Qed.

Lemma generate_blog_blank_tone_witness :
  ∃ resp st',
    generate_blog sample_rt padded_tone_request 5 6 empty_store
      = (Returned resp, st')
    ∧ ((GenerateRequest.tone padded_tone_request = [] →
        GenerateResponse.tone resp = lit "Professional")
       ∧ (GenerateRequest.tone padded_tone_request ≠ [] →
          GenerateResponse.tone resp = [])
       ∧ GenerateResponse.title resp
         = lit "A Practical Guide to" ++ lit " " ++ GenerateResponse.topic resp).
Proof.
  eexists _, _.
  refine ((λ H, conj H (generate_blog_blank_tone _ _ _ _ _ _ _ H _)) _).
  - reflexivity.
  - vm_compute. reflexivity.
Defined.

(** X12: Sending the fields of a response back as a request is accepted and
    reproduces the article: same topic, title, outline, content, keywords
    and length. *)
Theorem generate_blog_resubmit rt req stamp now st resp st1 stamp' now' st2 :
  generate_blog rt req stamp now st = (Returned resp, st1) →
  st_available st2 = true →
  ∃ resp' st3,
    generate_blog rt (request_of_response resp) stamp' now' st2
      = (Returned resp', st3)
    ∧ GenerateResponse.topic resp' = GenerateResponse.topic resp
    ∧ GenerateResponse.title resp' = GenerateResponse.title resp
    ∧ GenerateResponse.outline resp' = GenerateResponse.outline resp
    ∧ GenerateResponse.content resp' = GenerateResponse.content resp
    ∧ GenerateResponse.keywords resp' = GenerateResponse.keywords resp
    ∧ GenerateResponse.length resp' = GenerateResponse.length resp.
Proof.
  intros (Hne & Hc & ->)%generate_blog_returned Hav.
  set (v := accepted rt req).
  set (req' := request_of_response
                 (make_response req v (GenerateResponse.id resp) now)).
  assert (Htopic : strip (GenerateRequest.topic req')
                   = strip (GenerateRequest.topic req)).
  { apply strip_idempotent. }
  assert (Hne' : strip (GenerateRequest.topic req') ≠ []) by (rewrite Htopic; exact Hne).
  destruct (generate_blog_accepts rt req' stamp' now' st2 Hne' Hav)
    as (new_id & st3 & _ & Hg).
  eexists _, st3. split; [exact Hg|].
  unfold make_response.
  cbn [GenerateResponse.title GenerateResponse.content GenerateResponse.topic
       GenerateResponse.outline GenerateResponse.keywords
       GenerateResponse.length].
  pose proof (accepted_length_enum rt req) as Henum. fold v in Henum.
  assert (Hlen : Locals.length (accepted rt req') = Locals.length v).
  { change (Locals.length (accepted rt req'))
      with (let given := lower rt (if truthy (Locals.length v)
                                   then Locals.length v else lit "medium") in
            if decide (given ∈ length_enum) then given else lit "medium").
    cbv zeta. rewrite (enum_truthy _ Henum), (lower_enum rt _ Henum).
    rewrite decide_True by exact Henum. reflexivity. }
  assert (Hkw : Locals.keywords (accepted rt req') = Locals.keywords v).
  { change (Locals.keywords (accepted rt req'))
      with (List.map strip (List.filter (λ k, truthy (strip k))
                                        (Locals.keywords v))).
    apply keywords_refilter.
    exact (kept_keywords_trimmed (default [] (GenerateRequest.keywords req))). }
  assert (Hout : Locals.outline (accepted rt req') = Locals.outline v).
  { change (Locals.outline (accepted rt req'))
      with (generate_outline (strip (GenerateRequest.topic req'))
                             (Locals.length (accepted rt req'))).
    rewrite Htopic, Hlen. reflexivity. }
  split; [exact Htopic|].
  change (Locals.title (accepted rt req'))
    with (generate_title (strip (GenerateRequest.topic req'))
                         (Locals.tone (accepted rt req'))).
  change (Locals.content (accepted rt req'))
    with (generate_content (strip (GenerateRequest.topic req'))
            (Locals.tone (accepted rt req')) (Locals.outline (accepted rt req'))
            (GenerateRequest.audience req) (Locals.keywords (accepted rt req'))).
  rewrite Htopic, Hout, Hkw, Hlen.
  assert (Htone :
    generate_title (strip (GenerateRequest.topic req))
                   (Locals.tone (accepted rt req'))
    = Locals.title v
    ∧ generate_content (strip (GenerateRequest.topic req))
        (Locals.tone (accepted rt req')) (Locals.outline v)
        (GenerateRequest.audience req) (Locals.keywords v)
      = Locals.content v).
  { destruct (tone_again (GenerateRequest.tone req)) as [Hsame|[Hnil Hpro]].
    - change (Locals.tone (accepted rt req'))
        with (if truthy (Locals.tone v) then strip (Locals.tone v)
              else lit "Professional").
      change (Locals.tone v)
        with (if truthy (GenerateRequest.tone req)
              then strip (GenerateRequest.tone req) else lit "Professional").
      rewrite Hsame. split; reflexivity.
    - change (Locals.tone (accepted rt req'))
        with (if truthy (Locals.tone v) then strip (Locals.tone v)
              else lit "Professional").
      change (Locals.tone v)
        with (if truthy (GenerateRequest.tone req)
              then strip (GenerateRequest.tone req) else lit "Professional")
        in *.
      rewrite Hpro.
      pose proof (generate_title_unknown_tone
                    (strip (GenerateRequest.topic req)) []
                    empty_tone_unknown) as Ht.
      pose proof (generate_content_unknown_tone
                    (strip (GenerateRequest.topic req)) [] (Locals.outline v)
                    (GenerateRequest.audience req) (Locals.keywords v)
                    empty_tone_unknown) as Hcnt.
      rewrite <- Ht, <- Hcnt.
      change (Locals.title v)
        with (generate_title (strip (GenerateRequest.topic req))
                (if truthy (GenerateRequest.tone req)
                 then strip (GenerateRequest.tone req) else lit "Professional")).
      change (Locals.content v)
        with (generate_content (strip (GenerateRequest.topic req))
                (if truthy (GenerateRequest.tone req)
                 then strip (GenerateRequest.tone req) else lit "Professional")
                (Locals.outline v) (GenerateRequest.audience req)
                (Locals.keywords v)).
      rewrite Hnil. split; reflexivity. }
  destruct Htone as [-> ->]. repeat split.
Qed.

Lemma generate_blog_resubmit_witness :
  ∃ resp st1,
    generate_blog sample_rt padded_tone_request 5 6 empty_store
      = (Returned resp, st1)
    ∧ ∃ resp' st3,
        generate_blog sample_rt (request_of_response resp) 7 8 st1
          = (Returned resp', st3)
        ∧ GenerateResponse.topic resp' = GenerateResponse.topic resp
        ∧ GenerateResponse.title resp' = GenerateResponse.title resp
        ∧ GenerateResponse.outline resp' = GenerateResponse.outline resp
        ∧ GenerateResponse.content resp' = GenerateResponse.content resp
        ∧ GenerateResponse.keywords resp' = GenerateResponse.keywords resp
        ∧ GenerateResponse.length resp' = GenerateResponse.length resp.
Proof.
  eexists _, _.
  split; [vm_compute; reflexivity|].
  eapply (generate_blog_resubmit sample_rt padded_tone_request 5 6 empty_store
            _ _ 7 8).
  - vm_compute. reflexivity.
  - reflexivity.
Defined.

(** ** The listing: ties, failures and records without identifier *)

Lemma descending_at_most_one (t : N) (l : list item) :
  StronglySorted time_gt l → length (List.filter (keyed_at_time t) l) ≤ 1.
Proof.
  induction 1 as [|x l Hs IH Hx]; simpl; [lia|].
  destruct (keyed_at_time t x) eqn:Hk; [|exact IH]. simpl.
  assert (Hnone : List.filter (keyed_at_time t) l = []).
  { clear IH Hs. induction Hx as [|y l Hy Hx IH]; simpl; [reflexivity|].
    unfold keyed_at_time, time_gt in *. apply N.eqb_eq in Hk.
    destruct (N.eqb_spec (key_time y) t); [lia|exact IH]. }
  rewrite Hnone. simpl. lia.
Qed.

Lemma filter_rev_descending (t : N) (l : list item) :
  StronglySorted time_gt l →
  List.filter (keyed_at_time t) (rev l) = List.filter (keyed_at_time t) l.
Proof.
  intros Hs. rewrite List.filter_rev.
  pose proof (descending_at_most_one t l Hs) as Hlen.
  destruct (List.filter (keyed_at_time t) l) as [|a [|b k]];
    simpl in *; [reflexivity|reflexivity|lia].
Qed.

Lemma insert_stable (t : N) (run : list item) (x : item) (pos : nat) :
  Forall (λ e, time_gt e x) (drop pos run) →
  List.filter (keyed_at_time t) (take pos run ++ x :: drop pos run)
  = List.filter (keyed_at_time t) (run ++ [x]).
Proof.
  intros Hhigh. rewrite <- (take_drop pos run) at 3.
  rewrite !List.filter_app. simpl.
  destruct (keyed_at_time t x) eqn:Hk; [|rewrite app_nil_r; reflexivity].
  assert (Hnone : List.filter (keyed_at_time t) (drop pos run) = []).
  { induction Hhigh as [|y l Hy Hx IH]; simpl; [reflexivity|].
    unfold keyed_at_time, time_gt in *. apply N.eqb_eq in Hk.
    destruct (N.eqb_spec (key_time y) t); [lia|exact IH]. }
  rewrite Hnone, app_nil_r. reflexivity.
Qed.

Lemma binarysort_loop_stable (run rest : list item) :
  run ≠ [] → Forall datetime_keyed run → Forall datetime_keyed rest →
  StronglySorted time_le run →
  ∃ l', binarysort_loop run rest = SortDone l'
        ∧ ∀ t, List.filter (keyed_at_time t) l'
               = List.filter (keyed_at_time t) (run ++ rest).
Proof.
  intros Hne Hrun Hrest. revert run Hne Hrun.
  induction Hrest as [|x rest Hx Hrest IH]; intros run Hne Hrun Hs; simpl.
  - exists run. split; [reflexivity|]. intros t. rewrite app_nil_r. reflexivity.
  - destruct (bisect_sorted (length run) x run 0 (length run))
      as (pos & -> & Hpos & Hlow & Hhigh); try assumption.
    + destruct run; [congruence|simpl; lia].
    + lia.
    + lia.
    + constructor.
    + rewrite drop_ge by lia. constructor.
    + destruct (IH (take pos run ++ x :: drop pos run)) as (l' & -> & Hl').
      * destruct (take pos run); discriminate.
      * apply Forall_app. split; [apply Forall_take, Hrun|].
        constructor; [exact Hx|apply Forall_drop, Hrun].
      * apply insert_sorted; assumption.
      * exists l'. split; [reflexivity|]. intros t. rewrite Hl'.
        rewrite List.filter_app, (insert_stable t run x pos Hhigh).
        change (x :: rest) with ([x] ++ rest).
        rewrite (app_assoc run [x] rest), !List.filter_app. reflexivity.
Qed.

Lemma sort_short_stable (l : list item) :
  Forall datetime_keyed l →
  ∃ l', sort_short l = SortDone l'
        ∧ ∀ t, List.filter (keyed_at_time t) l' = List.filter (keyed_at_time t) l.
Proof.
  intros Hl. unfold sort_short.
  destruct (count_run_sorted l Hl) as (n & descending & -> & Hn & Hpos & Hs).
  set (l1 := if descending then rev (take n l) ++ drop n l else l).
  assert (Hl1 : Forall datetime_keyed l1).
  { subst l1. destruct descending; [|exact Hl].
    apply Forall_app. split; [|apply Forall_drop, Hl].
    apply Forall_forall. intros a Ha%list_elem_of_In%in_rev%list_elem_of_In.
    revert a Ha. apply Forall_forall, Forall_take, Hl. }
  assert (Hlen : length l1 = length l).
  { subst l1. destruct descending; [|reflexivity].
    rewrite length_app, length_rev, length_take, length_drop. lia. }
  assert (Hsame : ∀ t, List.filter (keyed_at_time t) l1
                       = List.filter (keyed_at_time t) l).
  { intros t. subst l1. destruct descending; [|reflexivity].
    rewrite List.filter_app, (filter_rev_descending t _ Hs), <- List.filter_app, take_drop.
    reflexivity. }
  assert (Hrun : StronglySorted time_le (take n l1)).
  { subst l1. destruct descending; [|exact Hs].
    rewrite take_app_length' by (rewrite length_rev, length_take; lia).
    apply StronglySorted_rev in Hs. revert Hs.
    generalize (rev (take n l)). intros run Hs.
    induction Hs as [|a run Hs IH Ha]; constructor; [exact IH|].
    eapply Forall_impl; [exact Ha|].
    unfold flip, time_gt, time_le. intros b Hb. lia. }
  destruct (Nat.ltb_spec n (length l1)) as [Hlt|Hge].
  - assert (0 < n) as Hn0.
    { apply Hpos. intros ->. simpl in Hlen. lia. }
    unfold binarysort. rewrite decide_False by lia.
    destruct (binarysort_loop_stable (take n l1) (drop n l1))
      as (l' & -> & Hl'); [|apply Forall_take, Hl1|apply Forall_drop, Hl1
                           |exact Hrun|].
    + intros Hnil. apply (f_equal (@length item)) in Hnil.
      rewrite length_take in Hnil. simpl in Hnil. lia.
    + exists l'. split; [reflexivity|]. intros t.
      rewrite Hl', take_drop. apply Hsame.
  - exists l1. split; [reflexivity|exact Hsame].
Qed.

Lemma created_at_time_clean (rt : runtime) (t : N) (l : list doc) :
  List.filter (created_at_time t) (List.map (clean rt) l)
  = List.map (clean rt) (List.filter (created_at_time t) l).
Proof.
  rewrite List.filter_map_swap. f_equal. apply List.filter_ext. intros d.
  unfold created_at_time. rewrite clean_timestamp. reflexivity.
Qed.

Lemma list_sort_reverse_stable (rt : runtime) (docs : list doc) (t : N) :
  length docs < 64 → Forall timestamped docs →
  List.filter (created_at_time t) (list_sort_reverse rt created_key docs).2
  = List.filter (created_at_time t) docs.
Proof.
  intros Hlen Hdocs. unfold list_sort_reverse.
  destruct (Nat.ltb_spec (length docs) 2) as [_|_]; [reflexivity|].
  destruct (Nat.ltb_spec (length docs) 64) as [_|?]; [|lia]. simpl.
  set (items := rev (List.map (λ d, (created_key d, d)) docs)).
  assert (Hitems : Forall (λ x, datetime_keyed x ∧ key_time x = timestamp x.2)
                          items).
  { subst items. apply Forall_forall.
    intros x Hx%list_elem_of_In%in_rev%in_map_iff. destruct Hx as (d & <- & Hd).
    apply created_key_time. rewrite Forall_forall in Hdocs.
    apply Hdocs, list_elem_of_In, Hd. }
  assert (Hagree : ∀ l : list item,
            Forall (λ x, datetime_keyed x ∧ key_time x = timestamp x.2) l →
            List.filter (created_at_time t) (List.map snd l)
            = List.map snd (List.filter (keyed_at_time t) l)).
  { intros l Hl. rewrite List.filter_map_swap. f_equal. apply List.filter_ext_in.
    intros x Hx. rewrite Forall_forall in Hl.
    destruct (Hl x (proj2 (list_elem_of_In _ _) Hx)) as [_ Hk].
    unfold created_at_time, keyed_at_time. rewrite Hk. reflexivity. }
  destruct (sort_short_stable items) as (l' & Heq & Hl').
  { eapply Forall_impl; [exact Hitems|]. intros x [Hx _]. exact Hx. }
  pose proof (sort_short_permutes items) as Hperm.
  rewrite Heq in *. simpl in *.
  rewrite List.filter_rev, Hagree by (rewrite Hperm; exact Hitems).
  rewrite Hl', <- (Hagree items Hitems). subst items.
  rewrite <- List.filter_rev, map_rev, rev_involutive, map_map. simpl.
  rewrite map_id. reflexivity.
Qed.

(** X13: Among up to 63 retrieved records whose creation time, where present,
    is a timestamp, records created at the same time are listed in the
    store's order. *)
Theorem list_posts_ties_keep_store_order (rt : runtime) (limit : Z) (st : store) :
  st_available st = true →
  length (take (Z.to_nat limit) (stored st)) < 64 →
  Forall timestamped (take (Z.to_nat limit) (stored st)) →
  ∃ rs,
    list_posts rt limit st = Returned rs
    ∧ ∀ t, List.filter (created_at_time t) rs
           = List.map (clean rt)
               (List.filter (created_at_time t)
                            (take (Z.to_nat limit) (stored st))).
Proof.
  intros Hav Hlen Hdocs. eexists. split.
  - unfold list_posts. rewrite (get_documents_available st limit Hav).
    reflexivity.
  - intros t. rewrite created_at_time_clean.
    rewrite (list_sort_reverse_stable rt _ t Hlen Hdocs). reflexivity.
Qed.

Lemma list_posts_ties_keep_store_order_witness :
  ∃ rs,
    list_posts sample_rt 10 tied_store = Returned rs
    ∧ ∀ t, List.filter (created_at_time t) rs
           = List.map (clean sample_rt)
               (List.filter (created_at_time t)
                            (take (Z.to_nat 10) (stored tied_store))).
Proof.
  apply (list_posts_ties_keep_store_order sample_rt 10 tied_store).
  - reflexivity.
  - vm_compute. lia.
  - vm_compute. prove_timestamped.
Defined.

Example list_posts_tied_store :
  returned_ids (list_posts sample_rt 10 tied_store)
  = [Some (PStr (lit "1")); Some (PStr (lit "0")); Some (PStr (lit "2"));
     Some (PStr (lit "3"))].
Proof. vm_compute. reflexivity. Qed.

(** X14: When the sort keys of the last two retrieved records cannot be compared
    (two [None]s under "created_at", a string next to a timestamp), the
    sort raises at its first comparison, before moving anything, and up to
    63 records are listed in the store's order. *)
Theorem list_posts_incomparable_tail (rt : runtime) (limit : Z) (st : store)
    (earlier : list doc) (a b : doc) :
  st_available st = true →
  take (Z.to_nat limit) (stored st) = earlier ++ [a; b] →
  length earlier < 62 →
  py_lt (created_key a) (created_key b) = None →
  (list_sort_reverse rt created_key (earlier ++ [a; b])).1 = true
  ∧ list_posts rt limit st = Returned (List.map (clean rt) (earlier ++ [a; b])).
Proof.
  intros Hav Htake Hlen Hlt.
  assert (Hsort : list_sort_reverse rt created_key (earlier ++ [a; b])
                  = (true, earlier ++ [a; b])).
  { unfold list_sort_reverse. rewrite length_app. simpl length.
    destruct (Nat.ltb_spec (length earlier + 2) 2) as [?|_]; [lia|].
    destruct (Nat.ltb_spec (length earlier + 2) 64) as [_|?]; [|lia].
    rewrite List.map_app, rev_app_distr. simpl rev. simpl app at 1.
    unfold sort_short, count_run. cbn [fst]. rewrite Hlt. simpl.
    rewrite map_rev, rev_involutive, map_map. simpl. rewrite map_id.
    rewrite <- app_assoc. reflexivity. }
  split; [rewrite Hsort; reflexivity|].
  unfold list_posts. rewrite (get_documents_available st limit Hav), Htake.
  rewrite Hsort. reflexivity.
Qed.

Lemma list_posts_incomparable_tail_witness :
  (list_sort_reverse sample_rt created_key
     ([sample_doc 0 (Some (PDatetime 2))]
      ++ [sample_doc 1 (Some PNone); sample_doc 2 (Some PNone)])).1 = true
  ∧ list_posts sample_rt 10 undated_store
    = Returned (List.map (clean sample_rt)
                  ([sample_doc 0 (Some (PDatetime 2))]
                   ++ [sample_doc 1 (Some PNone); sample_doc 2 (Some PNone)])).
Proof.
  apply (list_posts_incomparable_tail sample_rt 10 undated_store).
  - reflexivity.
  - reflexivity.
  - simpl. lia.
  - reflexivity.
Defined.

Lemma clean_idempotent (rt : runtime) (d : doc) :
  clean rt (clean rt d) = clean rt d.
Proof.
  apply clean_unidentified. apply clean_no_raw_identifier.
Qed.

(** X15: A listing is clean: running the identifier cleanup over the returned
    records again changes none of them, and there are as many of them as
    records retrieved. *)
Theorem list_posts_clean (rt : runtime) (limit : Z) (st : store) (rs : list doc) :
  sort_contract (rt_sort_long rt) →
  list_posts rt limit st = Returned rs →
  List.map (clean rt) rs = rs
  ∧ length rs = length (take (Z.to_nat limit) (stored st)).
Proof.
  intros Hlong (Hav & ->)%list_posts_returned. split.
  - rewrite map_map. apply map_ext. intros d. apply clean_idempotent.
  - rewrite length_map.
    rewrite (list_sort_reverse_permutes rt created_key _ Hlong). reflexivity.
Qed.

Lemma list_posts_clean_witness :
  ∃ rs,
    list_posts sample_rt 10 mixed_store = Returned rs
    ∧ List.map (clean sample_rt) rs = rs
    ∧ length rs = length (take (Z.to_nat 10) (stored mixed_store)).
Proof.
  eexists. split; [reflexivity|].
  apply (list_posts_clean sample_rt 10 mixed_store).
  - exact sort_short_contract.
  - reflexivity.
Defined.

(** X16: Records without a usable identifier, those with no "_id" and those
    with [None] under it, are returned exactly as stored: no "id" field is
    made up for them and a [None] "_id" stays in place. *)
Theorem list_posts_keeps_unidentified (rt : runtime) (limit : Z) (st : store)
    (rs : list doc) :
  sort_contract (rt_sort_long rt) →
  list_posts rt limit st = Returned rs →
  Forall (λ r, ∃ d, d ∈ stored st ∧ r = clean rt d
                    ∧ (unidentified d → r = d)) rs
  ∧ (Forall unidentified (take (Z.to_nat limit) (stored st)) →
     rs ≡ₚ take (Z.to_nat limit) (stored st)).
Proof.
  intros Hlong (Hav & ->)%list_posts_returned.
  pose proof (list_sort_reverse_permutes rt created_key
                (take (Z.to_nat limit) (stored st)) Hlong) as Hperm.
  split.
  - apply Forall_forall. intros r Hr%list_elem_of_In%in_map_iff.
    destruct Hr as (d & <- & Hd%list_elem_of_In). rewrite Hperm in Hd.
    apply elem_of_take in Hd as (i & Hd%list_elem_of_lookup_2 & _).
    exists d. split; [exact Hd|]. split; [reflexivity|].
    apply clean_unidentified.
  - intros Hall. rewrite <- Hperm in Hall.
    assert (Heq : ∀ l, Forall unidentified l → List.map (clean rt) l = l).
    { induction 1 as [|d l Hd _ IH]; simpl; [reflexivity|].
      rewrite (clean_unidentified rt d Hd), IH. reflexivity. }
    rewrite (Heq _ Hall). exact Hperm.
Qed.

Lemma list_posts_keeps_unidentified_witness :
  ∃ rs,
    list_posts sample_rt 10 anonymous_store = Returned rs
    ∧ Forall (λ r, ∃ d, d ∈ stored anonymous_store ∧ r = clean sample_rt d
                        ∧ (unidentified d → r = d)) rs
    ∧ (Forall unidentified (take (Z.to_nat 10) (stored anonymous_store)) →
       rs ≡ₚ take (Z.to_nat 10) (stored anonymous_store)).
Proof.
  eexists. split; [reflexivity|].
  apply (list_posts_keeps_unidentified sample_rt 10 anonymous_store).
  - exact sort_short_contract.
  - reflexivity.
Defined.

Example list_posts_anonymous_store :
  list_posts sample_rt 10 anonymous_store
  = Returned [ <[ lit "created_at" := PDatetime 4 ]> ∅;
               <[ lit "_id" := PNone ]>
                 (<[ lit "created_at" := PDatetime 1 ]> ∅) ].
Proof. vm_compute. reflexivity. Qed.

(** ** The diagnostic handler *)

Ltac lookup_response :=
  repeat first [ rewrite lookup_insert_eq
               | rewrite lookup_insert_ne by discriminate ].

Ltac cases_database db :=
  unfold test_database;
  destruct db as [[[v| |message] [names|]]|]; cbv zeta; cbn [db_name db_list_collection_names].

(** X17: The "database_url" and "database_name" fields report only whether the
    environment variable is set and non-empty; whatever the database handle
    is, its name never reaches the response. *)
Theorem test_database_env_fields (db : option database) (env : gmap str str) :
  test_database db env !! lit "database_url"
    = Some (set_or_not (getenv_truthy env (lit "DATABASE_URL")))
  ∧ test_database db env !! lit "database_name"
    = Some (set_or_not (getenv_truthy env (lit "DATABASE_NAME"))).
Proof.
  unfold test_database. cbv zeta. split; lookup_response; reflexivity.
Qed.

(** X18: The response has the same six fields in every case; "backend" and
    "connection_status" keep their initial values even when the database
    is connected. *)
Theorem test_database_fields (db : option database) (env : gmap str str) :
  dom (test_database db env)
    = list_to_set [lit "backend"; lit "database"; lit "database_url";
                   lit "database_name"; lit "connection_status";
                   lit "collections"]
  ∧ test_database db env !! lit "backend"
    = Some (PStr (check_mark ++ lit " Running"))
  ∧ test_database db env !! lit "connection_status"
    = Some (PStr (lit "Not Connected")).
Proof.
  split; [|split].
  - cases_database db; rewrite !dom_insert_L, dom_empty_L;
      cbn [list_to_set foldr]; set_solver.
  - cases_database db; lookup_response; reflexivity.
  - cases_database db; lookup_response; reflexivity.
Qed.

(** X19: At most ten collection names are reported, the first ones the handle
    lists; none are reported without a handle, when listing raises, or
    when reading the handle's name raised before. *)
Theorem test_database_collections (db : option database) (env : gmap str str) :
  ∃ names,
    test_database db env !! lit "collections" = Some (PList names)
    ∧ length names ≤ 10
    ∧ (∀ handle listed, db = Some handle →
         db_list_collection_names handle = Some listed →
         (∀ message, db_name handle ≠ AttrRaises message) →
         names = take 10 listed)
    ∧ (db = None → names = [])
    ∧ (∀ handle, db = Some handle →
         db_list_collection_names handle = None → names = [])
    ∧ (∀ handle message, db = Some handle →
         db_name handle = AttrRaises message → names = []).
Proof.
  cases_database db.
  all: eexists; split; [lookup_response; reflexivity|].
  all: split; [rewrite ?length_take; first [lia | simpl; lia]|].
  all: repeat split; intros; simplify_eq/=; try reflexivity.
  all: exfalso; match goal with H : ∀ m, _ ≠ _ |- _ => eapply H; reflexivity end.
Qed.

Ltac solve_status_iff :=
  split;
  [ intros H;
    first [ discriminate H
          | eexists; split; [reflexivity|simpl; discriminate] ]
  | intros (handle & Hh & Hm); simplify_eq/=;
    first [ reflexivity | exfalso; eapply Hm; reflexivity ] ].

(** X20: The "database" field reads "Connected & Working" exactly when there is
    a handle whose name can be read, carries at most the first 80 code
    points of the error text when reading the name raises, and is the
    "not initialized" warning without a handle; the initial "Not
    Available" is never what is reported. *)
Theorem test_database_status (db : option database) (env : gmap str str) :
  ∃ status,
    test_database db env !! lit "database" = Some (PStr status)
    ∧ status ≠ cross_mark ++ lit " Not Available"
    ∧ (status = check_mark ++ lit " Connected & Working"
       ↔ ∃ handle, db = Some handle
                   ∧ ∀ message, db_name handle ≠ AttrRaises message)
    ∧ (db = None
       → status = warning_sign ++ lit " Available but not initialized")
    ∧ (∀ handle message, db = Some handle →
         db_name handle = AttrRaises message →
         status = cross_mark ++ lit " Error: " ++ take 80 message
         ∧ length status ≤ 89).
Proof.
  cases_database db.
  all: eexists; split; [lookup_response; reflexivity|].
  all: split; [discriminate|].
  all: split; [solve_status_iff|].
  all: split; [intros; simplify_eq/=; try reflexivity|].
  all: intros handle msg Hh Hm; simplify_eq/=.
  all: split; [reflexivity|].
  all: rewrite length_take; lia.
Qed.

Example test_database_sample :
  test_database (Some sample_database) sample_env !! lit "database_name"
    = Some (PStr (cross_mark ++ lit " Not Set"))
  ∧ test_database (Some sample_database) sample_env !! lit "collections"
    = Some (PList (List.map (λ n, [n]) (List.map N.of_nat (seq 97 10)))).
Proof. split; vm_compute; reflexivity. Qed.
